(** * IBAN generator: shallow embedding and verification

    The development follows [src/utils/ibanGenerator.ts] function by
    function.  JavaScript values are modelled as follows.

    - Strings are [string]s of ASCII characters.  [toUpperCase] maps the
      letters a..z to A..Z and fixes every other character, [trim] strips
      the ASCII white space characters (TAB, LF, VT, FF, CR, SPACE).  On
      strings of ASCII characters ([isAscii]) these are the methods of
      [String.prototype]; off ASCII they are not ([String.prototype.trim]
      also strips U+00A0, [toUpperCase] maps U+00DF to SS), so a statement
      about an arbitrary input string that normalises or upper-cases it is
      made for ASCII input.  The keys of the registry, the strings that the
      generators build and the alphabet 0-9, A-Z are ASCII.
    - Numbers are integers.  [getSecureRandomInt] reads the source over the
      mathematical integers ([Z]); [getSecureRandomIntIEEE] is the same
      text in double precision, rounding after every operation as the
      source does.  The two agree on the bounds of [safeBounds], which
      contain every call that the generators make (ranges 4, 10, 26, 36),
      and differ beyond 2^53.  [Math.log2] is taken to be accurate enough
      for [Math.ceil (Math.log2 range / 8)] to be the least number of bytes
      whose value space covers [range].
    - [BigInt] is [Z]; [%] on it is the truncated remainder [Z.rem].
    - Exceptions are values of [JSError]; a computation that can throw
      returns a [result].
    - [crypto.getRandomValues] reads from a finite tape of bytes.  A
      computation that has used up the tape while its rejection loop is
      still drawing ends in [Pending]: on that tape it has not returned.
    - The world also counts the calls of [calculateCheckDigits], so that a
      statement can say that a run made none. *)

From Stdlib Require Import ZArith List String Ascii Bool Lia.
From Stdlib Require Import DecimalString Decimal.
From Stdlib Require Strings.Byte.
Import ListNotations.

Abbreviation byte := Init.Byte.byte.

Local Open Scope string_scope.
Local Open Scope Z_scope.

(** ** JavaScript primitives *)

Module JS.

Definition code (c : ascii) : Z := Z.of_nat (nat_of_ascii c).

Definition fromCharCode (n : Z) : string :=
  String (ascii_of_nat (Z.to_nat n)) "".

(** [s.charCodeAt(0)]; [None] stands for [NaN]. *)
Definition charCodeAt0 (s : string) : option Z :=
  match s with
  | EmptyString => None
  | String c _ => Some (code c)
  end.

Definition between (lo hi n : Z) : bool := (lo <=? n) && (n <=? hi).

Definition isDigit (c : ascii) : bool := between 48 57 (code c).
Definition isUpper (c : ascii) : bool := between 65 90 (code c).
Definition isLower (c : ascii) : bool := between 97 122 (code c).

(** The white space of ASCII: TAB, LF, VT, FF, CR and SPACE. *)
Definition isWhiteSpace (c : ascii) : bool :=
  between 9 13 (code c) || (code c =? 32).

(** [c.toUpperCase()] for a character of ASCII. *)
Definition upperChar (c : ascii) : ascii :=
  if isLower c then ascii_of_nat (Z.to_nat (code c - 32)) else c.

(** [s.toUpperCase()] for a string of ASCII characters. *)
Fixpoint toUpperCase (s : string) : string :=
  match s with
  | EmptyString => EmptyString
  | String c r => String (upperChar c) (toUpperCase r)
  end.

Fixpoint trimStart (s : string) : string :=
  match s with
  | EmptyString => EmptyString
  | String c r => if isWhiteSpace c then trimStart r else s
  end.

Fixpoint trimEnd (s : string) : string :=
  match s with
  | EmptyString => EmptyString
  | String c r =>
      match trimEnd r with
      | EmptyString => if isWhiteSpace c then EmptyString else String c EmptyString
      | r' => String c r'
      end
  end.

(** [s.trim()] for a string of ASCII characters. *)
Definition trim (s : string) : string := trimEnd (trimStart s).

Fixpoint all (p : ascii -> bool) (s : string) : bool :=
  match s with
  | EmptyString => true
  | String c r => p c && all p r
  end.

(** [n.toString()] for an integer [n]. *)
Definition toString (n : Z) : string := NilZero.string_of_int (Z.to_int n).

Fixpoint repeatChar (c : ascii) (n : nat) : string :=
  match n with
  | O => EmptyString
  | S n' => String c (repeatChar c n')
  end.

(** [s.padStart(targetLength, c)] for a one-character filler. *)
Definition padStart (s : string) (targetLength : nat) (c : ascii) : string :=
  repeatChar c (targetLength - String.length s) ++ s.

(** [/^\d{2}$/.test(s)] *)
Definition twoDigits (s : string) : bool :=
  match s with
  | String a (String b EmptyString) => isDigit a && isDigit b
  | _ => false
  end.

Inductive JSError : Type :=
| IBANGenerationError (message : string) (countryCode : option string)
| Error (name message : string).

Definition message (e : JSError) : string :=
  match e with
  | IBANGenerationError m _ => m
  | Error _ m => m
  end.

Definition isIBANGenerationError (e : JSError) : bool :=
  match e with
  | IBANGenerationError _ _ => true
  | Error _ _ => false
  end.

Inductive result (A : Type) : Type :=
| Ok (a : A)
| Err (e : JSError).
Arguments Ok {A} a.
Arguments Err {A} e.

Definition rbind {A B} (r : result A) (k : A -> result B) : result B :=
  match r with
  | Ok a => k a
  | Err e => Err e
  end.

Definition rcatch {A} (r : result A) (h : JSError -> result A) : result A :=
  match r with
  | Ok a => Ok a
  | Err e => h e
  end.

(** *** [BigInt(string)] *)

Definition digitValue (radix : Z) (c : ascii) : option Z :=
  let v := if isDigit c then code c - 48
           else if isLower c then code c - 87
           else if isUpper c then code c - 55
           else radix in
  if v <? radix then Some v else None.

Fixpoint parseDigits (radix : Z) (s : string) (acc : Z) : option Z :=
  match s with
  | EmptyString => Some acc
  | String c r =>
      match digitValue radix c with
      | Some v => parseDigits radix r (acc * radix + v)
      | None => None
      end
  end.

Definition parseNumeral (radix : Z) (s : string) : option Z :=
  match s with
  | EmptyString => None
  | _ => parseDigits radix s 0
  end.

Definition isOneOf (a b : ascii) (c : ascii) : bool :=
  Ascii.eqb c a || Ascii.eqb c b.

(** StringToBigInt: white space is trimmed, the empty string is [0n], a
    literal is a signed decimal numeral or an unsigned numeral with one of
    the prefixes 0x, 0o, 0b. *)
Definition StringToBigInt (s : string) : option Z :=
  match trim s with
  | EmptyString => Some 0
  | String c r =>
      if Ascii.eqb c "-" then option_map Z.opp (parseNumeral 10 r)
      else if Ascii.eqb c "+" then parseNumeral 10 r
      else
        match r with
        | String p r' =>
            if Ascii.eqb c "0" && isOneOf "x" "X" p then parseNumeral 16 r'
            else if Ascii.eqb c "0" && isOneOf "o" "O" p then parseNumeral 8 r'
            else if Ascii.eqb c "0" && isOneOf "b" "B" p then parseNumeral 2 r'
            else parseNumeral 10 (String c r)
        | EmptyString => parseNumeral 10 (String c r)
        end
  end.

Definition BigInt (s : string) : result Z :=
  match StringToBigInt s with
  | Some z => Ok z
  | None => Err (Error "SyntaxError" ("Cannot convert " ++ s ++ " to a BigInt"))
  end.

End JS.

Import JS.

Notation "x <- r ;; k" := (rbind r (fun x => k))
  (at level 61, r at next level, right associativity).

(** ** The checksum engine *)

(** Converts a character to its numeric representation: the digits stay,
    A..Z become 10..35, anything else throws. *)
Definition charToNumber (char : string) : result string :=
  let invalid :=
    Err (IBANGenerationError
           ("Invalid character '" ++ char ++ "' in IBAN calculation") None) in
  match charCodeAt0 char with
  | None => invalid
  | Some code =>
      if (48 <=? code) && (code <=? 57) then Ok char
      else if (65 <=? code) && (code <=? 90) then Ok (toString (code - 55))
      else invalid
  end.

(** The loop [for (const char of rearranged) numericString += ...]. *)
Fixpoint transliterate (rearranged : string) (numericString : string)
  : result string :=
  match rearranged with
  | EmptyString => Ok numericString
  | String char rest =>
      d <- charToNumber (toUpperCase (String char EmptyString)) ;;
      transliterate rest (numericString ++ d)
  end.

Definition calculateCheckDigits (countryCode bankCode accountNumber : string)
  : result string :=
  rcatch
    (let rearranged := bankCode ++ accountNumber ++ countryCode ++ "00" in
     numericString <- transliterate rearranged "" ;;
     big <- BigInt numericString ;;
     let remainder := Z.rem big 97 in
     let checkDigits := 98 - remainder in
     Ok (padStart (toString checkDigits) 2 "0"))
    (fun error =>
       Err (IBANGenerationError
              ("Failed to calculate check digits: " ++ message error)
              (Some countryCode))).

(** The earlier implementation kept in [src/unnamed/part_000]. *)
Module Legacy.

(** [s.replace(/[A-Z]/g, (char) => (char.charCodeAt(0) - 55).toString())] *)
Fixpoint replaceLetters (s : string) : string :=
  match s with
  | EmptyString => EmptyString
  | String c r =>
      (if isUpper c then toString (code c - 55) else String c EmptyString)
      ++ replaceLetters r
  end.

Definition calculateCheckDigits (countryCode bankCode accountNumber : string)
  : result string :=
  let rearranged := bankCode ++ accountNumber ++ countryCode ++ "00" in
  let numericString := replaceLetters rearranged in
  big <- BigInt numericString ;;
  let remainder := Z.rem big 97 in
  let checkDigits := 98 - remainder in
  Ok (padStart (toString checkDigits) 2 "0").

End Legacy.

(** ** The country registry *)

Record IBANCountryConfig : Type := mkConfig {
  name : string;
  length : Z;
  format : string;
  bankCodeLength : Z;
  accountNumberLength : Z;
  sampleBankCodes : list string
}.

(** The object literal [countries], in insertion order. *)
Definition countries : list (string * IBANCountryConfig) :=
  [ ("NL", mkConfig "Netherlands" 18 "NL2!n4!a10!n" 4 10
             ["ABNA"; "INGB"; "RABO"; "TRIO"]);
    ("DE", mkConfig "Germany" 22 "DE2!n8!n10!n" 8 10
             ["10010010"; "20070024"; "37040044"; "50010517"]);
    ("FR", mkConfig "France" 27 "FR2!n5!n5!n11!c2!n" 10 13
             ["2004100005"; "3000200009"; "1027800002"; "2004100005"]);
    ("GB", mkConfig "United Kingdom" 22 "GB2!n4!a6!n8!n" 10 8
             ["ABBY060001"; "BARC200000"; "HBUK400003"; "LOYD309634"]);
    ("ES", mkConfig "Spain" 24 "ES2!n4!n4!n1!n1!n10!n" 8 12
             ["21000418"; "00720301"; "01820200"; "21000001"]);
    ("IT", mkConfig "Italy" 27 "IT2!n1!a5!n5!n12!c" 11 12
             ["X0542811101"; "A0306901691"; "U0301503200"; "C0301503400"]);
    ("BE", mkConfig "Belgium" 16 "BE2!n3!n7!n2!n" 3 9
             ["539"; "096"; "001"; "068"]);
    ("CH", mkConfig "Switzerland" 21 "CH2!n5!n12!c" 5 12
             ["00762"; "08390"; "00230"; "00254"]);
    ("AT", mkConfig "Austria" 20 "AT2!n5!n11!n" 5 11
             ["19043"; "32000"; "20111"; "14000"]);
    ("DK", mkConfig "Denmark" 18 "DK2!n4!n9!n1!n" 4 10
             ["0040"; "5301"; "9570"; "7311"]) ].

(** [Object.keys(countries)] *)
Definition ObjectKeys (o : list (string * IBANCountryConfig)) : list string :=
  map fst o.

(** [countries[countryCode]] for a key the program asks for; [None] stands
    for [undefined].  The program indexes the registry only with a code that
    passed [validateCountryCode], which no inherited property name does. *)
Fixpoint lookup (o : list (string * IBANCountryConfig)) (key : string)
  : option IBANCountryConfig :=
  match o with
  | [] => None
  | (k, v) :: rest => if String.eqb key k then Some v else lookup rest key
  end.

(** The property names that [countries] inherits from [Object.prototype];
    the [in] operator sees them too. *)
Definition ObjectPrototypeKeys : list string :=
  [ "constructor"; "__defineGetter__"; "__defineSetter__"; "hasOwnProperty";
    "__lookupGetter__"; "__lookupSetter__"; "isPrototypeOf";
    "propertyIsEnumerable"; "toString"; "valueOf"; "__proto__";
    "toLocaleString" ].

Definition member (key : string) (keys : list string) : bool :=
  existsb (String.eqb key) keys.

(** [countryCode in countries] *)
Definition isValidCountryCode (countryCode : string) : bool :=
  member countryCode (ObjectKeys countries)
  || member countryCode ObjectPrototypeKeys.

(** [keys.join(sep)] *)
Fixpoint join (sep : string) (keys : list string) : string :=
  match keys with
  | [] => ""
  | [k] => k
  | k :: rest => k ++ sep ++ join sep rest
  end.

(** The argument is a string by its type, so the [typeof] test of the source
    never fires; a string is falsy exactly when it is empty. *)
Definition validateCountryCode (countryCode : string) : result unit :=
  if String.eqb countryCode "" then
    Err (IBANGenerationError "Country code is required" None)
  else if negb (isValidCountryCode (toUpperCase countryCode)) then
    Err (IBANGenerationError
           ("Country code '" ++ countryCode
            ++ "' is not supported. Supported codes: "
            ++ join ", " (ObjectKeys countries))
           (Some countryCode))
  else Ok tt.

(** ** Computations that draw entropy *)

Record World : Type := mkWorld {
  entropy : list byte;       (* what [crypto.getRandomValues] will deliver *)
  checksumCalls : nat        (* how often [calculateCheckDigits] was entered *)
}.

Inductive outcome (A : Type) : Type :=
| Returns (a : A) (w : World)
| Throws (e : JSError) (w : World)
| Pending.
Arguments Returns {A} a w.
Arguments Throws {A} e w.
Arguments Pending {A}.

Definition M (A : Type) : Type := World -> outcome A.

Definition ret {A} (a : A) : M A := fun w => Returns a w.

Definition throw {A} (e : JSError) : M A := fun w => Throws e w.

Definition bind {A B} (m : M A) (k : A -> M B) : M B :=
  fun w =>
    match m w with
    | Returns a w' => k a w'
    | Throws e w' => Throws e w'
    | Pending => Pending
    end.

Definition tryCatch {A} (m : M A) (h : JSError -> M A) : M A :=
  fun w =>
    match m w with
    | Returns a w' => Returns a w'
    | Throws e w' => h e w'
    | Pending => Pending
    end.

Definition lift {A} (r : result A) : M A :=
  match r with
  | Ok a => ret a
  | Err e => throw e
  end.

Notation "'let*' x ':=' m 'in' k" := (bind m (fun x => k))
  (at level 10, x name, m at level 100, k at level 200).

Definition byteValue (b : byte) : Z := Z.of_N (Strings.Byte.to_N b).

Fixpoint takeBytes (n : nat) (tape : list byte)
  : option (list byte * list byte) :=
  match n with
  | O => Some ([], tape)
  | S n' =>
      match tape with
      | [] => None
      | b :: tape' =>
          match takeBytes n' tape' with
          | Some (bs, rest) => Some (b :: bs, rest)
          | None => None
          end
      end
  end.

(** [crypto.getRandomValues(new Uint8Array(n))] *)
Definition getRandomValues (n : Z) : M (list byte) :=
  fun w =>
    match takeBytes (Z.to_nat n) (entropy w) with
    | Some (bs, rest) => Returns bs (mkWorld rest (checksumCalls w))
    | None => Pending
    end.

(** [bytes.reduce((sum, byte, index) => sum + byte * (256 ** index), sum0)],
    started at position [index]. *)
Fixpoint reduceBytes (index : Z) (sum : Z) (bytes : list byte) : Z :=
  match bytes with
  | [] => sum
  | b :: rest => reduceBytes (index + 1) (sum + byteValue b * 256 ^ index) rest
  end.

(** [Math.ceil(Math.log2(range) / 8)] *)
Definition bytesNeededFor (range : Z) : Z := (Z.log2_up range + 7) / 8.

(** [Math.floor(256 ** bytesNeeded / range) * range - 1] *)
Definition maxValidValueFor (bytesNeeded range : Z) : Z :=
  256 ^ bytesNeeded / range * range - 1.

(** The [do ... while (randomValue > maxValidValue)] loop; it returns the
    accepted [randomValue]. *)
Fixpoint drawLoop (fuel : nat) (bytesNeeded maxValidValue : Z) : M Z :=
  match fuel with
  | O => fun _ => Pending
  | S fuel' =>
      let* randomBytes := getRandomValues bytesNeeded in
      let randomValue := reduceBytes 0 0 randomBytes in
      if randomValue >? maxValidValue
      then drawLoop fuel' bytesNeeded maxValidValue
      else ret randomValue
  end.

(** Every turn of the loop that goes on takes at least one byte off the tape
    (or none at all, for ever), so one turn more than there are bytes decides
    the loop. *)
Definition doWhile (bytesNeeded maxValidValue : Z) : M Z :=
  fun w => drawLoop (S (List.length (entropy w))) bytesNeeded maxValidValue w.

(** The helper over the integers; [getSecureRandomIntIEEE] below is the
    helper in the double precision of the source. *)
Definition getSecureRandomInt (min max : Z) : M Z :=
  if min >? max then
    throw (Error "Error" "Minimum value cannot be greater than maximum value")
  else
    let range := max - min + 1 in
    let bytesNeeded := bytesNeededFor range in
    let maxValidValue := maxValidValueFor bytesNeeded range in
    let* randomValue := doWhile bytesNeeded maxValidValue in
    ret (min + Z.rem randomValue range).

(** ** [getSecureRandomInt] in double precision

    The numbers of the source are IEEE 754 doubles.  A double holds every
    integer of size at most 2^53 and, beyond, the integers of 53 significant
    bits; the result of an operation is the double nearest to the exact
    result, ties going to the even mantissa.  The values met here are far
    from the largest double, so nothing overflows. *)

Module Double.

(** The distance between neighbouring doubles around the integer [z]. *)
Definition spacing (z : Z) : Z := 2 ^ Z.max 0 (Z.log2 (Z.abs z) - 52).

(** The integer nearest to [n / d], for [0 < d]; a tie goes to the even
    one. *)
Definition nearest (n d : Z) : Z :=
  let q := n / d in
  let r := n mod d in
  if 2 * r <? d then q
  else if d <? 2 * r then q + 1
  else if Z.even q then q else q + 1.

(** The double nearest to the integer [z]. *)
Definition round (z : Z) : Z := nearest z (spacing z) * spacing z.

(** The binary exponent of the quotient of two positive integers: the [e]
    with [2 ^ e <= a / b < 2 ^ (e + 1)]. *)
Definition quotientExponent (a b : Z) : Z :=
  let e := Z.log2 a - Z.log2 b in
  if a * 2 ^ Z.max 0 (- e) <? b * 2 ^ Z.max 0 e then e - 1 else e.

(** [Math.floor(a / b)] for positive integers [a] and [b]: the quotient is
    rounded to 53 significant bits, then cut to an integer. *)
Definition floorDiv (a b : Z) : Z :=
  let s := 52 - quotientExponent a b in
  if 0 <=? s then nearest (a * 2 ^ s) b / 2 ^ s
  else nearest a (b * 2 ^ (- s)) * 2 ^ (- s).

End Double.

(** [bytes.reduce((sum, byte, index) => sum + byte * (256 ** index), sum0)]:
    the product is exact, the sum is rounded. *)
Fixpoint reduceBytesIEEE (index : Z) (sum : Z) (bytes : list byte) : Z :=
  match bytes with
  | [] => sum
  | b :: rest =>
      reduceBytesIEEE (index + 1)
        (Double.round (sum + byteValue b * 256 ^ index)) rest
  end.

(** [Math.floor(256 ** bytesNeeded / range) * range - 1] *)
Definition maxValidValueIEEE (bytesNeeded range : Z) : Z :=
  Double.round
    (Double.round (Double.floorDiv (256 ^ bytesNeeded) range * range) - 1).

Fixpoint drawLoopIEEE (fuel : nat) (bytesNeeded maxValidValue : Z) : M Z :=
  match fuel with
  | O => fun _ => Pending
  | S fuel' =>
      let* randomBytes := getRandomValues bytesNeeded in
      let randomValue := reduceBytesIEEE 0 0 randomBytes in
      if randomValue >? maxValidValue
      then drawLoopIEEE fuel' bytesNeeded maxValidValue
      else ret randomValue
  end.

Definition doWhileIEEE (bytesNeeded maxValidValue : Z) : M Z :=
  fun w =>
    drawLoopIEEE (S (List.length (entropy w))) bytesNeeded maxValidValue w.

(** The arguments are integers that are doubles.  [%] is exact on
    doubles. *)
Definition getSecureRandomIntIEEE (min max : Z) : M Z :=
  if min >? max then
    throw (Error "Error" "Minimum value cannot be greater than maximum value")
  else
    let range := Double.round (Double.round (max - min) + 1) in
    let bytesNeeded := bytesNeededFor range in
    let maxValidValue := maxValidValueIEEE bytesNeeded range in
    let* randomValue := doWhileIEEE bytesNeeded maxValidValue in
    ret (Double.round (min + Z.rem randomValue range)).

(** ** Component generators *)

Fixpoint numericLoop (n : nat) (result : string) : M string :=
  match n with
  | O => ret result
  | S n' =>
      let* d := getSecureRandomInt 0 9 in
      numericLoop n' (result ++ toString d)
  end.

Definition generateRandomNumericString (length : Z) : M string :=
  if length <=? 0 then ret ""
  else numericLoop (Z.to_nat length) "".

(** [chars[i]]; an index outside the string gives [undefined], which [+=]
    appends as the word. *)
Definition charAt (chars : string) (i : Z) : string :=
  match (if i <? 0 then None else String.get (Z.to_nat i) chars) with
  | Some c => String c ""
  | None => "undefined"
  end.

Definition chars : string := "ABCDEFGHIJKLMNOPQRSTUVWXYZ0123456789".

Fixpoint alphanumericLoop (n : nat) (result : string) : M string :=
  match n with
  | O => ret result
  | S n' =>
      let* i := getSecureRandomInt 0 (Z.of_nat (String.length chars) - 1) in
      alphanumericLoop n' (result ++ charAt chars i)
  end.

Definition generateRandomAlphanumericString (length : Z) : M string :=
  if length <=? 0 then ret ""
  else alphanumericLoop (Z.to_nat length) "".

(** [s.replace(/\d/g, () => String.fromCharCode(65 + getSecureRandomInt(0, 25)))] *)
Fixpoint replaceDigits (s : string) : M string :=
  match s with
  | EmptyString => ret ""
  | String c r =>
      let* h := (if isDigit c
                 then let* k := getSecureRandomInt 0 25 in
                      ret (fromCharCode (65 + k))
                 else ret (String c "")) in
      let* t := replaceDigits r in
      ret (h ++ t)
  end.

(** Reading a property of [undefined]. *)
Definition undefinedProperty {A} (property : string) : M A :=
  throw (Error "TypeError"
           ("Cannot read properties of undefined (reading '" ++ property ++ "')")).

(** [sampleCodes[i]] *)
Definition element (sampleCodes : list string) (i : Z) : string :=
  if i <? 0 then "undefined" else nth (Z.to_nat i) sampleCodes "undefined".

Definition isAmong (countryCode : string) (cases : list string) : bool :=
  member countryCode cases.

Definition generateBankCode (countryCode : string) : M string :=
  match lookup countries countryCode with
  | None => undefinedProperty "sampleBankCodes"
  | Some config =>
      let sampleCodes := sampleBankCodes config in
      if (0 <? List.length sampleCodes)%nat then
        let* randomIndex :=
          getSecureRandomInt 0 (Z.of_nat (List.length sampleCodes) - 1) in
        ret (element sampleCodes randomIndex)
      else if String.eqb countryCode "NL" then
        let* s := generateRandomAlphanumericString 4 in
        replaceDigits s
      else if isAmong countryCode ["DE"; "ES"; "BE"; "CH"; "AT"; "DK"] then
        generateRandomNumericString (bankCodeLength config)
      else if String.eqb countryCode "FR" then
        let* a := generateRandomNumericString 5 in
        let* b := generateRandomNumericString 5 in
        ret (a ++ b)
      else if String.eqb countryCode "GB" then
        let* s := generateRandomAlphanumericString 4 in
        let* a := replaceDigits s in
        let* b := generateRandomNumericString 6 in
        ret (a ++ b)
      else if String.eqb countryCode "IT" then
        let* k := getSecureRandomInt 0 25 in
        let* a := generateRandomNumericString 5 in
        let* b := generateRandomNumericString 5 in
        ret (fromCharCode (65 + k) ++ a ++ b)
      else
        generateRandomNumericString (bankCodeLength config)
  end.

Definition generateAccountNumber (countryCode : string) : M string :=
  match lookup countries countryCode with
  | None => undefinedProperty "accountNumberLength"
  | Some config =>
      let length := accountNumberLength config in
      if String.eqb countryCode "FR" then
        let* a := generateRandomAlphanumericString 11 in
        let* b := generateRandomNumericString 2 in
        ret (a ++ b)
      else if String.eqb countryCode "IT" then
        generateRandomAlphanumericString 12
      else if String.eqb countryCode "CH" then
        generateRandomAlphanumericString 12
      else
        generateRandomNumericString length
  end.

(** ** The orchestrator *)

(** [calculateCheckDigits] as the orchestrator runs it: the call is counted. *)
Definition runCalculateCheckDigits (countryCode bankCode accountNumber : string)
  : M string :=
  fun w =>
    lift (calculateCheckDigits countryCode bankCode accountNumber)
         (mkWorld (entropy w) (S (checksumCalls w))).

Definition validateGeneratedIBAN (iban countryCode : string) : result unit :=
  match lookup countries countryCode with
  | None => Err (Error "TypeError"
                   "Cannot read properties of undefined (reading 'length')")
  | Some config =>
      if negb (Z.of_nat (String.length iban) =? length config) then
        Err (IBANGenerationError
               ("Generated IBAN has incorrect length. Expected "
                ++ toString (length config) ++ ", got "
                ++ toString (Z.of_nat (String.length iban)))
               (Some countryCode))
      else if negb (prefix countryCode iban) then
        Err (IBANGenerationError
               ("Generated IBAN does not start with country code "
                ++ countryCode)
               (Some countryCode))
      else
        let checkDigits := substring 2 2 iban in
        if negb (twoDigits checkDigits) then
          Err (IBANGenerationError
                 ("Invalid check digits: " ++ checkDigits) (Some countryCode))
        else Ok tt
  end.

Definition generateIBAN (countryCode : string) : M string :=
  let normalizedCountryCode := trim (toUpperCase countryCode) in
  let* _ := lift (validateCountryCode normalizedCountryCode) in
  tryCatch
    (let* bankCode := generateBankCode normalizedCountryCode in
     let* accountNumber := generateAccountNumber normalizedCountryCode in
     let* checkDigits :=
       runCalculateCheckDigits normalizedCountryCode bankCode accountNumber in
     let iban :=
       normalizedCountryCode ++ checkDigits ++ bankCode ++ accountNumber in
     let* _ := lift (validateGeneratedIBAN iban normalizedCountryCode) in
     ret iban)
    (fun error =>
       if isIBANGenerationError error then throw error
       else throw (IBANGenerationError
                     ("Unexpected error during IBAN generation: "
                      ++ message error)
                     (Some normalizedCountryCode))).

Definition getAvailableCountries : list string := ObjectKeys countries.

(** [countries[countryCode]] for a [countryCode] of the parameter's type
    [IBANCountryCode], one of the ten keys. *)
Definition getCountryConfig (countryCode : string) : option IBANCountryConfig :=
  lookup countries countryCode.

(** ** The popup ([src/popup/popup.tsx])

    The component state is the record of its five [useState] cells; a
    handler is the state it leaves once its updates are applied.  The
    clipboard handler is left out. *)

Record PopupState : Type := mkPopup {
  selectedCountry : string;
  generatedIBAN : string;
  error : string;
  isGenerating : bool;
  copySuccess : bool
}.

Definition initialState : PopupState := mkPopup "NL" "" "" false false.

Definition setSelectedCountry (v : string) (st : PopupState) : PopupState :=
  mkPopup v (generatedIBAN st) (error st) (isGenerating st) (copySuccess st).

Definition setGeneratedIBAN (v : string) (st : PopupState) : PopupState :=
  mkPopup (selectedCountry st) v (error st) (isGenerating st) (copySuccess st).

Definition setError (v : string) (st : PopupState) : PopupState :=
  mkPopup (selectedCountry st) (generatedIBAN st) v (isGenerating st)
          (copySuccess st).

Definition setIsGenerating (v : bool) (st : PopupState) : PopupState :=
  mkPopup (selectedCountry st) (generatedIBAN st) (error st) v (copySuccess st).

Definition setCopySuccess (v : bool) (st : PopupState) : PopupState :=
  mkPopup (selectedCountry st) (generatedIBAN st) (error st) (isGenerating st) v.

Definition handleGenerate (st : PopupState) : M PopupState :=
  let st1 := setCopySuccess false (setError "" (setIsGenerating true st)) in
  let* st2 :=
    tryCatch
      (let* iban := generateIBAN (selectedCountry st) in
       ret (setGeneratedIBAN iban st1))
      (fun err =>
         let st' :=
           if isIBANGenerationError err
           then setError ("Error: " ++ message err) st1
           else setError "An unexpected error occurred while generating IBAN"
                         st1 in
         ret (setGeneratedIBAN "" st')) in
  ret (setIsGenerating false st2).

Definition handleCountryChange (value : string) (st : PopupState)
  : PopupState :=
  setCopySuccess false
    (setError "" (setGeneratedIBAN "" (setSelectedCountry value st))).

(** * Vocabulary of the statements *)

Definition isAlnum (c : ascii) : bool := isDigit c || isUpper c.

(** The characters of ASCII.  On a string of these, [toUpperCase] and
    [trim] are the methods of [String.prototype]. *)
Definition isAscii (c : ascii) : bool := code c <? 128.

(** The value of a decimal numeral, read from the left onto [acc]. *)
Fixpoint decimal (s : string) (acc : Z) : Z :=
  match s with
  | EmptyString => acc
  | String c r => decimal r (acc * 10 + (code c - 48))
  end.

Definition digitChar (d : Z) : ascii := ascii_of_nat (Z.to_nat (48 + d)).

Definition pad2 (k : Z) : string := padStart (toString k) 2 "0".

(** The numeral that [calculateCheckDigits] reduces, for a probe over the
    alphabet: the digits of bank code, account number and country code, on
    which the loop [transliterate] and the [replace] of the earlier code
    agree, followed by the placeholder 00. *)
Definition probeNumeral (countryCode bankCode accountNumber : string) : Z :=
  decimal (Legacy.replaceLetters (bankCode ++ accountNumber ++ countryCode)) 0
  * 100.

(** A byte of at most 249 is accepted by every draw the generator makes on
    the registry as it stands (ranges 4, 10 and 36). *)
Definition plain (b : byte) : bool := byteValue b <=? 249.

(** The number of such bytes left on the tape. *)
Definition supply (w : World) : nat := List.length (filter plain (entropy w)).

(** [yields m need P]: [m] never throws, what it returns satisfies [P], it
    uses up at most [need] plain bytes, and it is still pending only on a
    tape with fewer than [need] of them. *)
Definition yields {A} (m : M A) (need : nat) (P : A -> Prop) : Prop :=
  forall w,
    match m w with
    | Returns a w' => P a /\ (supply w <= supply w' + need)%nat
    | Throws _ _ => False
    | Pending => (supply w < need)%nat
    end.

(** A draw of [bytesNeeded] bytes that the loop throws away. *)
Definition rejectedDraw (bytesNeeded maxValidValue : Z) (d : list byte) : Prop :=
  List.length d = Z.to_nat bytesNeeded /\ reduceBytes 0 0 d > maxValidValue.

Definition allBytes : list byte :=
  map (fun n => match Strings.Byte.of_N (N.of_nat n) with
                | Some b => b
                | None => Init.Byte.x00
                end)
      (seq 0 256).

(** Every array of [n] bytes that [crypto.getRandomValues] can deliver. *)
Fixpoint allDraws (n : nat) : list (list byte) :=
  match n with
  | O => [[]]
  | S n' => flat_map (fun rest => map (fun b => b :: rest) allBytes) (allDraws n')
  end.

(** The test that ends the loop, and the value returned for the draw. *)
Definition accepted (min max : Z) (randomBytes : list byte) : bool :=
  let range := max - min + 1 in
  negb (reduceBytes 0 0 randomBytes
        >? maxValidValueFor (bytesNeededFor range) range).

Definition resultOf (min max : Z) (randomBytes : list byte) : Z :=
  min + Z.rem (reduceBytes 0 0 randomBytes) (max - min + 1).

(** The accepted draws that make [getSecureRandomInt min max] return [v]. *)
Definition drawsGiving (min max v : Z) : list (list byte) :=
  filter (fun d => accepted min max d && (resultOf min max d =? v))
         (allDraws (Z.to_nat (bytesNeededFor (max - min + 1)))).

Definition zrange (n : nat) : list Z := map Z.of_nat (seq 0 n).

(** Bounds between which [getSecureRandomInt] computes in integers that
    doubles hold exactly: at most six bytes are drawn per attempt, so that
    no value reaches 2^53. *)
Definition safeBounds (min max : Z) : Prop :=
  - 2 ^ 52 <= min /\ max <= 2 ^ 52 /\ max - min < 2 ^ 48.

(** [returnsOn min max d]: the helper returns on the tape that holds the
    bytes [d] and nothing more. *)
Definition returnsOn (min max : Z) (d : list byte) : bool :=
  match getSecureRandomIntIEEE min max (mkWorld d 0) with
  | Returns _ _ => true
  | _ => false
  end.

(** A string of [n] characters of one class. *)
Definition shaped (p : ascii -> bool) (n : Z) (s : string) : Prop :=
  Z.of_nat (String.length s) = n /\ all p s = true.

(** What the orchestrator relies on, entry by entry. *)
Record profileFacts (c : string) (cfg : IBANCountryConfig) : Prop := {
  normal_form : trim (toUpperCase c) = c;
  supported : validateCountryCode c = Ok tt;
  registered : lookup countries c = Some cfg;
  code_shape : String.length c = 2%nat /\ all isAlnum c = true;
  pool_size : List.length (sampleBankCodes cfg) = 4%nat;
  pool_shape :
    forallb (fun bank => (Z.of_nat (String.length bank) =? bankCodeLength cfg)
                         && all isAlnum bank)
            (sampleBankCodes cfg) = true;
  account_width : 0 <= accountNumberLength cfg;
  total_width : 4 + bankCodeLength cfg + accountNumberLength cfg = length cfg
}.

(** The four leading characters moved to the end. *)
Definition rearrange (iban : string) : string :=
  substring 4 (String.length iban - 4) iban ++ substring 0 4 iban.

(** The ISO 7064 residue of a full IBAN: rearranged, transliterated by the
    loop of [calculateCheckDigits], read as a decimal numeral, modulo 97. *)
Definition mod97 (iban : string) : result Z :=
  numericString <- transliterate (rearrange iban) "" ;;
  big <- BigInt numericString ;;
  Ok (Z.rem big 97).

(** Modelled from the spec: [validateIBAN] is named by the README and the
    spec (sections 4.4 and 6) and is not in the source.  It derives the check
    digits of the candidate's body again with [calculateCheckDigits] and
    compares them to the two embedded ones. *)
Definition validateIBAN (iban : string) : bool :=
  match calculateCheckDigits (substring 0 2 iban)
                             (substring 4 (String.length iban - 4) iban) ""
  with
  | Ok checkDigits => String.eqb checkDigits (substring 2 2 iban)
  | Err _ => false
  end.

(** What [generateIBAN] puts together for the entry [cfg] of [c]. *)
Definition assembled (c : string) (cfg : IBANCountryConfig) (iban : string)
  : Prop :=
  exists bankCode accountNumber checkDigits,
    iban = c ++ checkDigits ++ bankCode ++ accountNumber
    /\ In bankCode (sampleBankCodes cfg)
    /\ shaped isAlnum (accountNumberLength cfg) accountNumber
    /\ calculateCheckDigits c bankCode accountNumber = Ok checkDigits
    /\ validateGeneratedIBAN iban c = Ok tt.



Definition notLower (c : ascii) : bool := negb (isLower c).

(** A string that does not begin with white space. *)
Definition leftTrimmed (s : string) : Prop :=
  match s with
  | EmptyString => True
  | String c _ => isWhiteSpace c = false
  end.

(** [returnsOnly m P]: [m] never throws and whatever it returns satisfies
    [P]. *)
Definition returnsOnly {A} (m : M A) (P : A -> Prop) : Prop :=
  forall w,
    match m w with
    | Returns a _ => P a
    | Throws _ _ => False
    | Pending => True
    end.

(** [spends m least calls]: when [m] returns it has taken a prefix of at
    least [least] bytes off the tape and has entered [calculateCheckDigits]
    [calls] times. *)
Definition spends {A} (m : M A) (least calls : nat) : Prop :=
  forall w a w',
    m w = Returns a w' ->
    (exists used,
        entropy w = (used ++ entropy w')%list
        /\ (least <= List.length used)%nat)
    /\ checksumCalls w' = (checksumCalls w + calls)%nat.

(** The layout of the account number that [generateAccountNumber] builds
    for a country. *)
Definition accountShape (c : string) (cfg : IBANCountryConfig)
           (accountNumber : string) : Prop :=
  if String.eqb c "FR" then
    exists a b, accountNumber = a ++ b
                /\ shaped isAlnum 11 a /\ shaped isDigit 2 b
  else if String.eqb c "IT" || String.eqb c "CH" then
    shaped isAlnum 12 accountNumber
  else
    shaped isDigit (accountNumberLength cfg) accountNumber.

(** [t] is [s] with every decimal digit replaced by a capital letter and
    every other character kept in its place. *)
Fixpoint lettersFor (s t : string) : Prop :=
  match s, t with
  | EmptyString, EmptyString => True
  | String a s', String b t' =>
      (if isDigit a then isUpper b = true else b = a) /\ lettersFor s' t'
  | _, _ => False
  end.

(** The number of decimal digits of a string. *)
Fixpoint countDigits (s : string) : nat :=
  match s with
  | EmptyString => O
  | String c r => ((if isDigit c then 1 else 0) + countDigits r)%nat
  end.

(** A byte that a draw of one of 26 values accepts. *)
Definition low (b : byte) : Prop := byteValue b <= 233.

Ltac each_country H :=
  repeat (destruct H as [H|H]; [injection H as <- <-|]); try contradiction.

(** * Verification *)

(** ** Strings and numerals *)

Section StringFacts.

Lemma append_nil_r (s : string) : s ++ "" = s.
Proof. induction s; simpl; congruence. Qed.

Lemma append_assoc (s t u : string) : (s ++ t) ++ u = s ++ (t ++ u).
Proof. induction s; simpl; congruence. Qed.

Lemma length_append (s t : string) :
  String.length (s ++ t) = (String.length s + String.length t)%nat.
Proof. induction s; simpl; congruence. Qed.

Lemma all_append (p : ascii -> bool) (s t : string) :
  all p (s ++ t) = all p s && all p t.
Proof.
  induction s as [|c s IH]; simpl; [reflexivity|].
  now rewrite IH, andb_assoc.
Qed.

Lemma all_impl (p q : ascii -> bool) (s : string) :
  (forall c, p c = true -> q c = true) -> all p s = true -> all q s = true.
Proof.
  intros Hpq; induction s as [|c s IH]; simpl; [reflexivity|].
  intros [Hc Hs]%andb_prop. now rewrite (Hpq _ Hc), IH.
Qed.

Lemma substring_all (s : string) : substring 0 (String.length s) s = s.
Proof. induction s; simpl; congruence. Qed.

Lemma prefix_append (s t : string) : prefix s (s ++ t) = true.
Proof.
  induction s as [|c s IH]; simpl; [now destruct t|].
  destruct (ascii_dec c c); [assumption|congruence].
Qed.

End StringFacts.

Section NumeralFacts.

Lemma below_100 (P : Z -> bool) :
  forallb (fun n => P (Z.of_nat n)) (seq 0 100) = true ->
  forall k, 0 <= k < 100 -> P k = true.
Proof.
  intros H k Hk. rewrite forallb_forall in H.
  specialize (H (Z.to_nat k)). rewrite Z2Nat.id in H by lia.
  apply H, in_seq. lia.
Qed.

Lemma pad2_digits (k : Z) :
  0 <= k < 100 ->
  pad2 k = String (digitChar (k / 10)) (String (digitChar (k mod 10)) "").
Proof.
  intros Hk. apply String.eqb_eq. revert k Hk.
  apply (below_100 (fun k =>
    String.eqb (pad2 k)
      (String (digitChar (k / 10)) (String (digitChar (k mod 10)) "")))).
  vm_compute. reflexivity.
Qed.

Lemma digitChar_isDigit (d : Z) : 0 <= d < 10 -> isDigit (digitChar d) = true.
Proof.
  intros Hd. revert d Hd.
  assert (H : forall k, 0 <= k < 100 ->
              (10 <=? k) || isDigit (digitChar k) = true).
  { apply (below_100 (fun k => (10 <=? k) || isDigit (digitChar k))).
    vm_compute. reflexivity. }
  intros d Hd. specialize (H d ltac:(lia)).
  apply orb_prop in H as [H|H]; [apply Z.leb_le in H; lia|assumption].
Qed.

Lemma code_digitChar (d : Z) : 0 <= d < 10 -> code (digitChar d) = 48 + d.
Proof.
  intros Hd. unfold code, digitChar.
  rewrite nat_ascii_embedding by lia. lia.
Qed.

Lemma toString_letter_digits (k : Z) :
  10 <= k <= 35 -> all isDigit (toString k) = true.
Proof.
  intros Hk.
  assert (H : forall k, 0 <= k < 100 -> all isDigit (toString k) = true).
  { apply (below_100 (fun k => all isDigit (toString k))).
    vm_compute. reflexivity. }
  apply H. lia.
Qed.

Lemma decimal_append (s t : string) (acc : Z) :
  decimal (s ++ t) acc = decimal t (decimal s acc).
Proof. revert acc; induction s as [|c s IH]; intros; simpl; auto. Qed.

Lemma decimal_nonneg (s : string) (acc : Z) :
  all isDigit s = true -> 0 <= acc -> 0 <= decimal s acc.
Proof.
  revert acc; induction s as [|c s IH]; intros acc Hs Hacc; simpl in *.
  - assumption.
  - apply andb_prop in Hs as [Hc Hs]. apply IH; [assumption|].
    unfold isDigit, between in Hc. lia.
Qed.

Lemma decimal_pad2 (k acc : Z) :
  0 <= k < 100 -> decimal (pad2 k) acc = acc * 100 + k.
Proof.
  intros Hk. rewrite pad2_digits by assumption. simpl.
  rewrite !code_digitChar.
  - pose proof (Z.div_mod k 10 ltac:(lia)). lia.
  - apply Z.mod_pos_bound; lia.
  - split; [apply Z.div_pos; lia|apply Z.div_lt_upper_bound; lia].
Qed.

End NumeralFacts.

(** ** The checksum engine on the alphabet 0-9, A-Z *)

Section Checksum.

Lemma digit_not_lower c : isDigit c = true -> isLower c = false.
Proof. unfold isDigit, isLower, between. lia. Qed.

Lemma upper_not_lower c : isUpper c = true -> isLower c = false.
Proof. unfold isUpper, isLower, between. lia. Qed.

Lemma upper_not_digit c : isUpper c = true -> isDigit c = false.
Proof. unfold isUpper, isDigit, between. lia. Qed.

Lemma digit_not_upper c : isDigit c = true -> isUpper c = false.
Proof. unfold isUpper, isDigit, between. lia. Qed.

Lemma digit_not_space c : isDigit c = true -> isWhiteSpace c = false.
Proof. unfold isDigit, isWhiteSpace, between. lia. Qed.

Lemma charToNumber_digit c :
  isDigit c = true ->
  charToNumber (toUpperCase (String c "")) = Ok (String c "").
Proof.
  intros Hc. simpl. unfold upperChar. rewrite (digit_not_lower _ Hc).
  unfold charToNumber, charCodeAt0.
  unfold isDigit, between in Hc. now rewrite Hc.
Qed.

Lemma charToNumber_upper c :
  isUpper c = true ->
  charToNumber (toUpperCase (String c "")) = Ok (toString (code c - 55)).
Proof.
  intros Hc. simpl. unfold upperChar. rewrite (upper_not_lower _ Hc).
  unfold charToNumber, charCodeAt0.
  pose proof (upper_not_digit _ Hc) as Hd.
  unfold isDigit, isUpper, between in Hc, Hd. now rewrite Hd, Hc.
Qed.

(** On the alphabet the loop of the current code builds what the
    [replace] of the earlier code builds. *)
Lemma transliterate_alnum (s acc : string) :
  all isAlnum s = true ->
  transliterate s acc = Ok (acc ++ Legacy.replaceLetters s).
Proof.
  revert acc; induction s as [|c s IH]; intros acc Hs; simpl in *.
  - now rewrite append_nil_r.
  - apply andb_prop in Hs as [Hc Hs]. unfold isAlnum in Hc.
    apply orb_prop in Hc as [Hc|Hc].
    + change (String (upperChar c) "") with (toUpperCase (String c "")).
      rewrite (charToNumber_digit _ Hc). simpl.
      rewrite (digit_not_upper _ Hc), IH by assumption.
      now rewrite append_assoc.
    + change (String (upperChar c) "") with (toUpperCase (String c "")).
      rewrite (charToNumber_upper _ Hc). simpl.
      rewrite Hc, IH by assumption. now rewrite append_assoc.
Qed.

Lemma replaceLetters_digits (s : string) :
  all isAlnum s = true -> all isDigit (Legacy.replaceLetters s) = true.
Proof.
  induction s as [|c s IH]; simpl; [reflexivity|].
  intros [Hc Hs]%andb_prop. rewrite all_append, (IH Hs), andb_true_r.
  unfold isAlnum in Hc. apply orb_prop in Hc as [Hc|Hc].
  - rewrite (digit_not_upper _ Hc). simpl. now rewrite Hc.
  - rewrite Hc. apply toString_letter_digits.
    unfold isUpper, between in Hc. lia.
Qed.

Lemma replaceLetters_append (s t : string) :
  Legacy.replaceLetters (s ++ t)
  = Legacy.replaceLetters s ++ Legacy.replaceLetters t.
Proof.
  induction s as [|c s IH]; simpl; [reflexivity|].
  now rewrite IH, append_assoc.
Qed.

Lemma replaceLetters_of_digits (s : string) :
  all isDigit s = true -> Legacy.replaceLetters s = s.
Proof.
  induction s as [|c s IH]; simpl; [reflexivity|].
  intros [Hc Hs]%andb_prop. now rewrite (digit_not_upper _ Hc), IH.
Qed.

Lemma trimEnd_no_space (s : string) :
  all (fun c => negb (isWhiteSpace c)) s = true -> trimEnd s = s.
Proof.
  induction s as [|c s IH]; simpl; [reflexivity|].
  intros [Hc Hs]%andb_prop. rewrite (IH Hs).
  apply negb_true_iff in Hc. rewrite Hc. now destruct s.
Qed.

Lemma trim_digits (s : string) : all isDigit s = true -> trim s = s.
Proof.
  intros Hs. unfold trim.
  assert (Ht : trimStart s = s).
  { destruct s as [|c s]; simpl in *; [reflexivity|].
    apply andb_prop in Hs as [Hc _]. now rewrite (digit_not_space _ Hc). }
  rewrite Ht. apply trimEnd_no_space.
  eapply all_impl; [|exact Hs].
  intros c Hc. now rewrite (digit_not_space _ Hc).
Qed.

Lemma parseDigits_decimal (s : string) (acc : Z) :
  all isDigit s = true -> parseDigits 10 s acc = Some (decimal s acc).
Proof.
  revert acc; induction s as [|c s IH]; intros acc Hs; simpl in *.
  - reflexivity.
  - apply andb_prop in Hs as [Hc Hs]. unfold digitValue. rewrite Hc.
    assert (Hlt : (code c - 48 <? 10) = true)
      by (unfold isDigit, between in Hc; lia).
    rewrite Hlt. now apply IH.
Qed.

Lemma digit_differs (c d : ascii) :
  isDigit c = true -> isDigit d = false -> Ascii.eqb c d = false.
Proof.
  intros Hc Hd. destruct (Ascii.eqb_spec c d); [congruence|reflexivity].
Qed.

(** [BigInt] of a non-empty string of decimal digits is its value. *)
Lemma BigInt_digits (s : string) :
  all isDigit s = true -> s <> "" -> BigInt s = Ok (decimal s 0).
Proof.
  intros Hs Hne. unfold BigInt, StringToBigInt.
  rewrite (trim_digits _ Hs).
  destruct s as [|c r]; [congruence|].
  pose proof Hs as Hs'. simpl in Hs'. apply andb_prop in Hs' as [Hc Hr].
  rewrite (digit_differs c "-" Hc eq_refl), (digit_differs c "+" Hc eq_refl).
  assert (Hp : parseNumeral 10 (String c r) = Some (decimal (String c r) 0))
    by (unfold parseNumeral; now apply parseDigits_decimal).
  destruct r as [|p r']; [now rewrite Hp|].
  simpl in Hr. apply andb_prop in Hr as [Hpd _].
  unfold isOneOf.
  rewrite (digit_differs p "x" Hpd eq_refl), (digit_differs p "X" Hpd eq_refl),
    (digit_differs p "o" Hpd eq_refl), (digit_differs p "O" Hpd eq_refl),
    (digit_differs p "b" Hpd eq_refl), (digit_differs p "B" Hpd eq_refl).
  rewrite andb_false_r. now rewrite Hp.
Qed.

Lemma probe_alnum (countryCode bankCode accountNumber : string) :
  all isAlnum countryCode = true ->
  all isAlnum bankCode = true ->
  all isAlnum accountNumber = true ->
  all isAlnum (bankCode ++ accountNumber ++ countryCode ++ "00") = true.
Proof.
  intros Hc Hb Ha. rewrite !all_append, Hc, Hb, Ha. reflexivity.
Qed.

Lemma probe_BigInt (countryCode bankCode accountNumber : string) :
  all isAlnum countryCode = true ->
  all isAlnum bankCode = true ->
  all isAlnum accountNumber = true ->
  BigInt (Legacy.replaceLetters
            (bankCode ++ accountNumber ++ countryCode ++ "00"))
  = Ok (probeNumeral countryCode bankCode accountNumber)
  /\ 0 <= probeNumeral countryCode bankCode accountNumber.
Proof.
  intros Hc Hb Ha.
  pose proof (probe_alnum _ _ _ Hc Hb Ha) as Hall.
  assert (Hbody : all isAlnum (bankCode ++ accountNumber ++ countryCode) = true)
    by (rewrite !all_append, Hc, Hb, Ha; reflexivity).
  split.
  - rewrite BigInt_digits.
    + f_equal. unfold probeNumeral.
      replace (bankCode ++ accountNumber ++ countryCode ++ "00")
        with ((bankCode ++ accountNumber ++ countryCode) ++ "00")
        by (now rewrite !append_assoc).
      rewrite replaceLetters_append, decimal_append. simpl. lia.
    + now apply replaceLetters_digits.
    + replace (bankCode ++ accountNumber ++ countryCode ++ "00")
        with ((bankCode ++ accountNumber ++ countryCode) ++ "00")
        by (now rewrite !append_assoc).
      rewrite replaceLetters_append. simpl.
      destruct (Legacy.replaceLetters _); simpl; discriminate.
  - unfold probeNumeral.
    pose proof (decimal_nonneg _ 0 (replaceLetters_digits _ Hbody)). lia.
Qed.

Lemma calculateCheckDigits_alnum (countryCode bankCode accountNumber : string) :
  all isAlnum countryCode = true ->
  all isAlnum bankCode = true ->
  all isAlnum accountNumber = true ->
  calculateCheckDigits countryCode bankCode accountNumber
  = Ok (pad2 (98 - probeNumeral countryCode bankCode accountNumber mod 97)).
Proof.
  intros Hc Hb Ha. unfold calculateCheckDigits.
  rewrite transliterate_alnum by now apply probe_alnum.
  destruct (probe_BigInt _ _ _ Hc Hb Ha) as [HB Hpos].
  simpl rbind. cbv zeta. simpl append at 1.
  rewrite HB. simpl. rewrite Z.rem_mod_nonneg by lia. reflexivity.
Qed.

Lemma legacy_calculateCheckDigits_alnum
      (countryCode bankCode accountNumber : string) :
  all isAlnum countryCode = true ->
  all isAlnum bankCode = true ->
  all isAlnum accountNumber = true ->
  Legacy.calculateCheckDigits countryCode bankCode accountNumber
  = Ok (pad2 (98 - probeNumeral countryCode bankCode accountNumber mod 97)).
Proof.
  intros Hc Hb Ha. unfold Legacy.calculateCheckDigits.
  destruct (probe_BigInt _ _ _ Hc Hb Ha) as [HB Hpos].
  cbv zeta. rewrite HB. simpl. rewrite Z.rem_mod_nonneg by lia. reflexivity.
Qed.

End Checksum.

(** ** Entropy accounting *)

Section Yields.

Context {A B : Type}.

Lemma yields_ret (a : A) (P : A -> Prop) : P a -> yields (ret a) 0 P.
Proof. intros Ha w. simpl. split; [assumption|lia]. Qed.

Lemma yields_bind (m : M A) (k : A -> M B) (n1 n2 : nat)
      (P : A -> Prop) (Q : B -> Prop) :
  yields m n1 P ->
  (forall a, P a -> yields (k a) n2 Q) ->
  yields (bind m k) (n1 + n2) Q.
Proof.
  intros Hm Hk w. unfold bind. specialize (Hm w).
  destruct (m w) as [a w1| |]; [|contradiction|lia].
  destruct Hm as [Ha Hs]. specialize (Hk a Ha w1).
  destruct (k a w1) as [b w2| |]; [|contradiction|lia].
  destruct Hk as [Hb Hs2]. split; [assumption|lia].
Qed.

Lemma yields_weaken (m : M A) (n : nat) (P Q : A -> Prop) :
  yields m n P -> (forall a, P a -> Q a) -> yields m n Q.
Proof.
  intros Hm HPQ w. specialize (Hm w).
  destruct (m w); intuition.
Qed.

Lemma yields_tryCatch (m : M A) (h : JSError -> M A) (n : nat)
      (P : A -> Prop) :
  yields m n P -> yields (tryCatch m h) n P.
Proof.
  intros Hm w. unfold tryCatch. specialize (Hm w).
  destruct (m w); [assumption|contradiction|assumption].
Qed.

Lemma yields_returns (m : M A) (n : nat) (P : A -> Prop) w a w' :
  yields m n P -> m w = Returns a w' -> P a.
Proof. intros Hm E. specialize (Hm w). rewrite E in Hm. tauto. Qed.

Lemma yields_no_throw (m : M A) (n : nat) (P : A -> Prop) w e w' :
  yields m n P -> m w <> Throws e w'.
Proof. intros Hm E. specialize (Hm w). now rewrite E in Hm. Qed.

Lemma yields_progress (m : M A) (n : nat) (P : A -> Prop) w :
  yields m n P -> (n <= supply w)%nat ->
  exists a w', m w = Returns a w' /\ P a.
Proof.
  intros Hm Hn. specialize (Hm w).
  destruct (m w) as [a w'| |]; [|contradiction|lia].
  exists a, w'. tauto.
Qed.

End Yields.

(** ** [getSecureRandomInt] *)

Section SecureRandom.

Lemma byteValue_range (b : byte) : 0 <= byteValue b <= 255.
Proof.
  unfold byteValue. pose proof (Strings.Byte.to_N_bounded b). lia.
Qed.

Lemma reduceBytes_shift (bytes : list byte) (index sum : Z) :
  0 <= index ->
  reduceBytes index sum bytes = sum + 256 ^ index * reduceBytes 0 0 bytes.
Proof.
  revert index sum; induction bytes as [|b rest IH]; intros index sum Hi.
  - simpl. lia.
  - cbn [reduceBytes].
    rewrite (IH (index + 1)) by lia. rewrite (IH (0 + 1)) by lia.
    rewrite Z.pow_add_r by lia. change (0 + 1) with 1.
    rewrite Z.pow_0_r, Z.pow_1_r. lia.
Qed.

(** Little-endian reading: the first byte is the least significant. *)
Lemma reduceBytes_cons (b : byte) (rest : list byte) :
  reduceBytes 0 0 (b :: rest) = byteValue b + 256 * reduceBytes 0 0 rest.
Proof.
  cbn [reduceBytes]. rewrite reduceBytes_shift by lia.
  change (0 + 1) with 1. rewrite Z.pow_0_r, Z.pow_1_r. lia.
Qed.

Lemma reduceBytes_range (bytes : list byte) :
  0 <= reduceBytes 0 0 bytes < 256 ^ Z.of_nat (List.length bytes).
Proof.
  induction bytes as [|b rest IH].
  - simpl. lia.
  - rewrite reduceBytes_cons. pose proof (byteValue_range b).
    change (List.length (b :: rest)) with (S (List.length rest)).
    rewrite Nat2Z.inj_succ, Z.pow_succ_r by lia. lia.
Qed.

Lemma takeBytes_length n tape bs rest :
  takeBytes n tape = Some (bs, rest) ->
  List.length bs = n /\ tape = (bs ++ rest)%list.
Proof.
  revert tape bs rest; induction n as [|n IH]; intros tape bs rest; simpl.
  - intros [= <- <-]. auto.
  - destruct tape as [|b tape]; [discriminate|].
    destruct (takeBytes n tape) as [[bs' rest']|] eqn:E; [|discriminate].
    intros [= <- <-]. destruct (IH _ _ _ E) as [Hl ->].
    simpl. now rewrite Hl.
Qed.

Lemma takeBytes_app bs rest :
  takeBytes (List.length bs) (bs ++ rest)%list = Some (bs, rest).
Proof. induction bs as [|b bs IH]; simpl; [reflexivity|now rewrite IH]. Qed.

(** The number of bytes drawn is the least one whose value space covers
    the range. *)
Lemma bytesNeededFor_spec (range : Z) :
  1 <= range ->
  0 <= bytesNeededFor range
  /\ range <= 256 ^ bytesNeededFor range
  /\ (1 < range -> 256 ^ (bytesNeededFor range - 1) < range).
Proof.
  intros Hr. unfold bytesNeededFor.
  pose proof (Z.log2_up_nonneg range) as Hl.
  set (l := Z.log2_up range) in *.
  assert (Hb : 0 <= (l + 7) / 8) by (apply Z.div_pos; lia).
  pose proof (Z.div_mod (l + 7) 8 ltac:(lia)) as Hdm.
  pose proof (Z.mod_pos_bound (l + 7) 8 ltac:(lia)) as Hm.
  assert (H256 : forall k, 0 <= k -> 256 ^ k = 2 ^ (8 * k)).
  { intros k Hk. rewrite Z.pow_mul_r by lia. reflexivity. }
  split; [assumption|split].
  - rewrite H256 by assumption.
    apply Z.log2_up_le_pow2; [lia|]. fold l. lia.
  - intros H1. pose proof (Z.log2_up_pos range H1) as Hlp. fold l in Hlp.
    rewrite H256 by lia.
    apply Z.log2_up_lt_pow2; [lia|]. fold l. lia.
Qed.

Lemma maxValidValueFor_spec (range : Z) :
  1 <= range ->
  let b := bytesNeededFor range in
  let q := 256 ^ b / range in
  maxValidValueFor b range = q * range - 1
  /\ 1 <= q /\ q * range <= 256 ^ b.
Proof.
  intros Hr b q. destruct (bytesNeededFor_spec range Hr) as (Hb & Hcover & _).
  fold b in Hb, Hcover. split; [reflexivity|]. split.
  - unfold q. apply Z.div_le_lower_bound; lia.
  - unfold q. pose proof (Z.mul_div_le (256 ^ b) range ltac:(lia)). lia.
Qed.

End SecureRandom.

(** *** What the rejection loop does on a tape *)

Section RejectionLoop.

Variables bytesNeeded maxValidValue : Z.

(** The loop skips the rejected draws and returns the first accepted one. *)
Lemma drawLoop_accepts (skipped : list (list byte)) :
  forall (d rest : list byte) (calls fuel : nat),
    Forall (rejectedDraw bytesNeeded maxValidValue) skipped ->
    List.length d = Z.to_nat bytesNeeded ->
    reduceBytes 0 0 d <= maxValidValue ->
    (List.length skipped < fuel)%nat ->
    drawLoop fuel bytesNeeded maxValidValue
      (mkWorld (List.concat skipped ++ d ++ rest)%list calls)
    = Returns (reduceBytes 0 0 d) (mkWorld rest calls).
Proof.
  induction skipped as [|s skipped IH]; intros d rest calls fuel Hsk Hd Hv Hf.
  - destruct fuel as [|fuel]; [simpl in Hf; lia|].
    simpl. unfold bind, getRandomValues. simpl entropy.
    rewrite <- Hd, takeBytes_app.
    destruct (reduceBytes 0 0 d >? maxValidValue) eqn:E; [lia|reflexivity].
  - destruct fuel as [|fuel]; [simpl in Hf; lia|].
    inversion Hsk as [|? ? [Hsl Hsv] Hsk']; subst.
    cbn [drawLoop List.concat]. unfold bind at 1. unfold getRandomValues.
    simpl entropy. rewrite <- Hsl, <- app_assoc, takeBytes_app.
    destruct (reduceBytes 0 0 s >? maxValidValue) eqn:E; [|lia].
    simpl checksumCalls. apply IH; try assumption. simpl in Hf. lia.
Qed.

(** Conversely, whatever the loop returns is the first accepted draw. *)
Lemma drawLoop_returns (fuel : nat) :
  forall w v w',
    drawLoop fuel bytesNeeded maxValidValue w = Returns v w' ->
    exists skipped d,
      Forall (rejectedDraw bytesNeeded maxValidValue) skipped
      /\ List.length d = Z.to_nat bytesNeeded
      /\ v = reduceBytes 0 0 d /\ v <= maxValidValue
      /\ entropy w = (List.concat skipped ++ d ++ entropy w')%list
      /\ checksumCalls w' = checksumCalls w.
Proof.
  induction fuel as [|fuel IH]; intros w v w'; [discriminate|].
  simpl. unfold bind, getRandomValues.
  destruct (takeBytes (Z.to_nat bytesNeeded) (entropy w)) as [[bs rest]|] eqn:E;
    [|discriminate].
  destruct (takeBytes_length _ _ _ _ E) as [Hl Ht].
  destruct (reduceBytes 0 0 bs >? maxValidValue) eqn:Ev.
  - intros H. apply IH in H as (skipped & d & Hsk & Hd & Hv & Hle & Hent & Hc).
    exists (bs :: skipped), d. simpl in Hent, Hc.
    repeat split; try assumption.
    + constructor; [split; [assumption|lia]|assumption].
    + rewrite Ht, Hent. simpl. now rewrite <- app_assoc.
  - intros [= <- <-]. exists [], bs. simpl. repeat split; auto. lia.
Qed.

Lemma drawLoop_no_throw (fuel : nat) :
  forall w e w', drawLoop fuel bytesNeeded maxValidValue w <> Throws e w'.
Proof.
  induction fuel as [|fuel IH]; intros w e w'; [discriminate|].
  simpl. unfold bind, getRandomValues.
  destruct (takeBytes _ _) as [[bs rest]|]; [|discriminate].
  destruct (_ >? _); [apply IH|discriminate].
Qed.

End RejectionLoop.

Section GetSecureRandomInt.

Variables min max : Z.
Hypothesis Hle : min <= max.

Let range := max - min + 1.
Let bytesNeeded := bytesNeededFor range.
Let maxValidValue := maxValidValueFor bytesNeeded range.

Lemma getSecureRandomInt_unfold (w : World) :
  getSecureRandomInt min max w
  = bind (doWhile bytesNeeded maxValidValue)
         (fun randomValue => ret (min + Z.rem randomValue range)) w.
Proof.
  unfold getSecureRandomInt.
  destruct (min >? max) eqn:E; [lia|reflexivity].
Qed.

Lemma skipped_length (skipped : list (list byte)) :
  Forall (rejectedDraw bytesNeeded maxValidValue) skipped ->
  (List.length skipped <= List.length (List.concat skipped))%nat.
Proof.
  assert (Hr : 1 <= range) by (unfold range; lia).
  destruct (maxValidValueFor_spec range Hr) as (Hmv & Hq & _).
  fold bytesNeeded in Hmv, Hq. fold maxValidValue in Hmv.
  induction 1 as [|s skipped [Hs Hv] _ IH]; simpl; [lia|].
  rewrite length_app.
  destruct s as [|b s]; [|simpl; lia].
  simpl in Hv. nia.
Qed.

(** The function on a tape: rejected draws are skipped, the first accepted
    draw [d] decides the result, and the tape after it is left. *)
Lemma getSecureRandomInt_accepts skipped d rest calls :
  Forall (rejectedDraw bytesNeeded maxValidValue) skipped ->
  List.length d = Z.to_nat bytesNeeded ->
  reduceBytes 0 0 d <= maxValidValue ->
  getSecureRandomInt min max (mkWorld (List.concat skipped ++ d ++ rest)%list calls)
  = Returns (min + Z.rem (reduceBytes 0 0 d) range) (mkWorld rest calls).
Proof.
  intros Hsk Hd Hv. rewrite getSecureRandomInt_unfold.
  unfold bind, doWhile.
  rewrite drawLoop_accepts; try assumption; [reflexivity|].
  simpl entropy. rewrite length_app.
  pose proof (skipped_length _ Hsk). lia.
Qed.

Lemma getSecureRandomInt_returns w v w' :
  getSecureRandomInt min max w = Returns v w' ->
  exists skipped d,
    Forall (rejectedDraw bytesNeeded maxValidValue) skipped
    /\ List.length d = Z.to_nat bytesNeeded
    /\ reduceBytes 0 0 d <= maxValidValue
    /\ v = min + Z.rem (reduceBytes 0 0 d) range
    /\ entropy w = (List.concat skipped ++ d ++ entropy w')%list
    /\ checksumCalls w' = checksumCalls w.
Proof.
  rewrite getSecureRandomInt_unfold. unfold bind, doWhile.
  destruct (drawLoop _ _ _ w) as [x w1| |] eqn:E; try discriminate.
  intros [= <- <-].
  apply drawLoop_returns in E as (skipped & d & Hsk & Hd & Hx & Hv & He & Hc).
  exists skipped, d. subst x. repeat split; assumption.
Qed.

Lemma getSecureRandomInt_in_range w v w' :
  getSecureRandomInt min max w = Returns v w' -> min <= v <= max.
Proof.
  intros H. apply getSecureRandomInt_returns in H
    as (skipped & d & _ & _ & _ & -> & _).
  pose proof (reduceBytes_range d) as [H0 _].
  assert (Hr : 0 < range) by (unfold range; lia).
  rewrite Z.rem_mod_nonneg by lia.
  pose proof (Z.mod_pos_bound (reduceBytes 0 0 d) range Hr).
  unfold range in *. lia.
Qed.

Lemma getSecureRandomInt_no_throw w e w' :
  getSecureRandomInt min max w <> Throws e w'.
Proof.
  rewrite getSecureRandomInt_unfold. unfold bind, doWhile.
  destruct (drawLoop _ _ _ w) as [x w1| |] eqn:E; try discriminate.
  now apply drawLoop_no_throw in E.
Qed.

End GetSecureRandomInt.

(** *** Double precision

    Below 2^53 rounding does nothing, so that between the bounds of
    [safeBounds] the helper in double precision is the helper over the
    integers. *)

Section DoubleFacts.

Lemma nearest_unit (z : Z) : Double.nearest z 1 = z.
Proof.
  unfold Double.nearest. rewrite Z.div_1_r, Z.mod_1_r. reflexivity.
Qed.

Lemma round_small (z : Z) : Z.abs z < 2 ^ 53 -> Double.round z = z.
Proof.
  intros H. unfold Double.round, Double.spacing.
  assert (L : Z.log2 (Z.abs z) <= 52).
  { destruct (Z.eq_dec (Z.abs z) 0) as [E|E]; [rewrite E; cbn; lia|].
    assert (Z.log2 (Z.abs z) < 53); [|lia].
    apply Z.log2_lt_pow2; lia. }
  rewrite Z.max_l by lia. change (2 ^ 0) with 1.
  rewrite nearest_unit. lia.
Qed.

(** [nearest n d] is within one half of [n / d]. *)
Lemma nearest_bounds (n d : Z) :
  0 < d -> 2 * n - d <= 2 * d * Double.nearest n d <= 2 * n + d.
Proof.
  intros Hd. unfold Double.nearest.
  pose proof (Z.div_mod n d ltac:(lia)) as E.
  pose proof (Z.mod_pos_bound n d Hd) as B.
  set (q := n / d) in *. set (r := n mod d) in *.
  destruct (Z.ltb_spec (2 * r) d); [nia|].
  destruct (Z.ltb_spec d (2 * r)); [nia|].
  destruct (Z.even q); nia.
Qed.

Lemma quotientExponent_spec (a b : Z) :
  0 < b -> b <= a ->
  0 <= Double.quotientExponent a b <= Z.log2 a
  /\ b * 2 ^ Double.quotientExponent a b <= a.
Proof.
  intros Hb Hab. unfold Double.quotientExponent.
  assert (Ha : 0 < a) by lia.
  pose proof (Z.log2_spec a Ha) as [La Ua].
  pose proof (Z.log2_spec b Hb) as [Lb Ub].
  pose proof (Z.log2_nonneg b) as Nb.
  pose proof (Z.log2_le_mono b a Hab) as Lab.
  set (e := Z.log2 a - Z.log2 b) in *.
  assert (He : 0 <= e) by (unfold e; lia).
  rewrite (Z.max_l 0 (- e)), (Z.max_r 0 e) by lia.
  change (2 ^ 0) with 1. rewrite Z.mul_1_r.
  assert (Ea : 2 ^ Z.log2 a = 2 ^ e * 2 ^ Z.log2 b).
  { rewrite <- Z.pow_add_r by lia. f_equal. unfold e. lia. }
  destruct (Z.ltb_spec a (b * 2 ^ e)) as [Hlt|Hge].
  - assert (e <> 0).
    { intros E0. rewrite E0 in Hlt. change (2 ^ 0) with 1 in Hlt. lia. }
    split; [lia|].
    assert (E2 : 2 ^ e = 2 * 2 ^ (e - 1)).
    { rewrite <- Z.pow_succ_r by lia. f_equal. lia. }
    assert (S2 : 2 ^ Z.succ (Z.log2 b) = 2 * 2 ^ Z.log2 b).
    { apply Z.pow_succ_r. lia. }
    assert (0 < 2 ^ (e - 1)) by (apply Z.pow_pos_nonneg; lia).
    nia.
  - split; lia.
Qed.

(** A quotient below 2^53 is not rounded up to the next integer. *)
Lemma floorDiv_exact (a b : Z) :
  0 < b -> b <= a -> a < 2 ^ 53 -> Double.floorDiv a b = a / b.
Proof.
  intros Hb Hab Ha.
  destruct (quotientExponent_spec a b Hb Hab) as [[He0 Hel] Hle].
  unfold Double.floorDiv.
  set (e := Double.quotientExponent a b) in *.
  assert (He : e <= 52).
  { assert (Z.log2 a < 53); [|lia]. apply Z.log2_lt_pow2; lia. }
  destruct (Z.leb_spec 0 (52 - e)) as [_|]; [|lia].
  set (s := 52 - e).
  assert (HP : 0 < 2 ^ s) by (apply Z.pow_pos_nonneg; lia).
  assert (HE : 0 < 2 ^ e) by (apply Z.pow_pos_nonneg; lia).
  assert (HPE : 2 ^ s * 2 ^ e = 2 ^ 52).
  { rewrite <- Z.pow_add_r by lia. f_equal. unfold s. lia. }
  change (2 ^ 53) with (2 * 2 ^ 52) in Ha.
  pose proof (nearest_bounds (a * 2 ^ s) b Hb) as [Lm Um].
  pose proof (Z.div_mod a b ltac:(lia)) as E.
  pose proof (Z.mod_pos_bound a b Hb) as B.
  set (m := Double.nearest (a * 2 ^ s) b) in *.
  set (q := a / b) in *. set (r := a mod b) in *.
  set (P := 2 ^ s) in *. set (Q := 2 ^ e) in *.
  symmetry. apply Z.div_unique with (r := m - q * P); [|lia].
  left. split.
  - assert (~ m <= q * P - 1); [|lia]. intros C. nia.
  - assert (~ (q + 1) * P <= m); [|lia]. intros C.
    assert (b < 2 * P) by nia.
    nia.
Qed.

Lemma reduceBytesIEEE_exact (bytes : list byte) :
  forall index sum,
    0 <= index -> 0 <= sum < 256 ^ index ->
    index + Z.of_nat (List.length bytes) <= 6 ->
    reduceBytesIEEE index sum bytes = reduceBytes index sum bytes.
Proof.
  induction bytes as [|b rest IH]; intros index sum Hi Hs Hl; [reflexivity|].
  cbn [reduceBytesIEEE reduceBytes].
  change (List.length (b :: rest)) with (S (List.length rest)) in Hl.
  pose proof (byteValue_range b) as Hb.
  assert (Hp : 256 ^ (index + 1) = 256 * 256 ^ index).
  { rewrite Z.pow_add_r by lia. lia. }
  assert (Hn : 0 <= sum + byteValue b * 256 ^ index < 256 ^ (index + 1)) by nia.
  assert (Hm : 256 ^ (index + 1) <= 256 ^ 6).
  { apply Z.pow_le_mono_r; lia. }
  rewrite round_small.
  - apply IH; lia.
  - change (256 ^ 6) with (2 ^ 48) in Hm.
    assert (2 ^ 48 < 2 ^ 53) by reflexivity. lia.
Qed.

Lemma drawLoopIEEE_exact (bytesNeeded maxValidValue : Z) (fuel : nat) :
  bytesNeeded <= 6 ->
  forall w,
    drawLoopIEEE fuel bytesNeeded maxValidValue w
    = drawLoop fuel bytesNeeded maxValidValue w.
Proof.
  intros Hb. induction fuel as [|fuel IH]; intros w; [reflexivity|].
  cbn [drawLoopIEEE drawLoop]. unfold bind, getRandomValues.
  destruct (takeBytes (Z.to_nat bytesNeeded) (entropy w)) as [[bs rest]|] eqn:E;
    [|reflexivity].
  destruct (takeBytes_length _ _ _ _ E) as [Hl _].
  rewrite reduceBytesIEEE_exact by (cbn; lia).
  destruct (reduceBytes 0 0 bs >? maxValidValue); [apply IH|reflexivity].
Qed.

Lemma bytesNeededFor_small (range : Z) :
  1 <= range -> range <= 2 ^ 48 -> bytesNeededFor range <= 6.
Proof.
  intros H1 H2. unfold bytesNeededFor.
  assert (Z.log2_up range <= 48).
  { apply Z.log2_up_le_pow2; lia. }
  assert ((Z.log2_up range + 7) / 8 < 7); [|lia].
  apply Z.div_lt_upper_bound; lia.
Qed.

(** Between the bounds of [safeBounds] the source computes exactly. *)
Lemma getSecureRandomIntIEEE_exact (min max : Z) (w : World) :
  safeBounds min max ->
  getSecureRandomIntIEEE min max w = getSecureRandomInt min max w.
Proof.
  intros (Hmin & Hmax & Hrange).
  unfold getSecureRandomIntIEEE, getSecureRandomInt.
  destruct (Z.gtb_spec min max) as [|Hle]; [reflexivity|].
  assert (P52 : 2 ^ 52 = 4503599627370496) by reflexivity.
  assert (P53 : 2 ^ 53 = 9007199254740992) by reflexivity.
  assert (P48 : 2 ^ 48 = 281474976710656) by reflexivity.
  rewrite (round_small (max - min)) by lia.
  rewrite (round_small (max - min + 1)) by lia.
  set (range := max - min + 1).
  assert (Hr : 1 <= range) by (unfold range; lia).
  assert (Hr' : range <= 2 ^ 48) by (unfold range; lia).
  pose proof (bytesNeededFor_small range Hr Hr') as Hb.
  destruct (maxValidValueFor_spec range Hr) as (Hmv & Hq & Hqr).
  destruct (bytesNeededFor_spec range Hr) as (Hb0 & Hcover & _).
  set (b := bytesNeededFor range) in *.
  assert (H256 : 256 ^ b <= 2 ^ 48).
  { change (2 ^ 48) with (256 ^ 6). apply Z.pow_le_mono_r; lia. }
  assert (Hmv' : maxValidValueIEEE b range = maxValidValueFor b range).
  { unfold maxValidValueIEEE. rewrite floorDiv_exact by lia.
    cbv zeta in Hqr, Hq.
    rewrite (round_small (256 ^ b / range * range)) by lia.
    rewrite round_small by lia. reflexivity. }
  rewrite Hmv'. unfold bind, doWhileIEEE, doWhile.
  rewrite drawLoopIEEE_exact by lia.
  destruct (drawLoop _ _ _ w) as [x w1| |]; try reflexivity.
  unfold ret. f_equal.
  pose proof (Z.rem_bound_abs x range ltac:(lia)).
  apply round_small. lia.
Qed.

End DoubleFacts.

(** *** Counting the draws behind each result *)

Section Counting.

Lemma seq_shift_by (len start a : nat) :
  seq (start + a) len = map (fun x => (x + a)%nat) (seq start len).
Proof.
  revert start; induction len as [|len IH]; intros start; simpl.
  - reflexivity.
  - f_equal. apply (IH (S start)).
Qed.

Lemma zrange_app (a b : nat) :
  zrange (a + b) = (zrange a ++ map (fun x => x + Z.of_nat a) (zrange b))%list.
Proof.
  unfold zrange. rewrite seq_app, map_app. f_equal.
  rewrite (seq_shift_by b 0 a), !map_map.
  apply map_ext. intros x. lia.
Qed.

Lemma zrange_S (n : nat) : zrange (S n) = (zrange n ++ [Z.of_nat n])%list.
Proof. unfold zrange. now rewrite seq_S, map_app. Qed.

Lemma in_zrange (n : nat) (x : Z) : In x (zrange n) <-> 0 <= x < Z.of_nat n.
Proof.
  unfold zrange. rewrite in_map_iff. split.
  - intros (k & <- & Hk%in_seq). lia.
  - intros Hx. exists (Z.to_nat x). split; [lia|]. apply in_seq. lia.
Qed.

Lemma length_filter_map {X Y} (f : Y -> bool) (g : X -> Y) (l : list X) :
  List.length (filter f (map g l))
  = List.length (filter (fun x => f (g x)) l).
Proof.
  induction l as [|x l IH]; simpl; [reflexivity|].
  destruct (f (g x)); simpl; congruence.
Qed.

Lemma length_filter_none {X} (f : X -> bool) (l : list X) :
  (forall x, In x l -> f x = false) -> List.length (filter f l) = 0%nat.
Proof.
  induction l as [|x l IH]; intros H; simpl; [reflexivity|].
  rewrite (H x (or_introl eq_refl)). apply IH.
  intros y Hy. apply H. now right.
Qed.

(** One value occurs once in an initial segment that holds it. *)
Lemma count_value (n : nat) (k : Z) :
  0 <= k < Z.of_nat n ->
  List.length (filter (fun y => y =? k) (zrange n)) = 1%nat.
Proof.
  induction n as [|n IH]; intros Hk; [simpl in Hk; lia|].
  rewrite zrange_S, filter_app, length_app. simpl.
  destruct (Z.of_nat n =? k) eqn:E.
  - rewrite length_filter_none; [reflexivity|].
    intros x Hx%in_zrange. lia.
  - rewrite IH by lia. reflexivity.
Qed.

(** Each residue occurs [q] times below [q * r]. *)
Lemma count_residue (r q : nat) (k : Z) :
  0 <= k < Z.of_nat r ->
  List.length (filter (fun x => x mod Z.of_nat r =? k) (zrange (q * r)))
  = q.
Proof.
  intros Hk. induction q as [|q IH]; [reflexivity|].
  replace (S q * r)%nat with (q * r + r)%nat by lia.
  rewrite zrange_app, filter_app, length_app, IH, length_filter_map.
  rewrite (filter_ext_in _ (fun y => y =? k)).
  - rewrite count_value by assumption. lia.
  - intros y Hy%in_zrange.
    rewrite Nat2Z.inj_mul, Z.mod_add by lia.
    rewrite Z.mod_small by lia. reflexivity.
Qed.

Lemma map_flat_map {X Y W} (g : Y -> W) (f : X -> list Y) (l : list X) :
  map g (flat_map f l) = flat_map (fun x => map g (f x)) l.
Proof.
  induction l as [|x l IH]; simpl; [reflexivity|].
  now rewrite map_app, IH.
Qed.

Lemma flat_map_map {X Y W} (f : Y -> list W) (g : X -> Y) (l : list X) :
  flat_map f (map g l) = flat_map (fun x => f (g x)) l.
Proof.
  induction l as [|x l IH]; simpl; [reflexivity|]. now rewrite IH.
Qed.

Lemma allBytes_values : map byteValue allBytes = zrange 256.
Proof. vm_compute. reflexivity. Qed.

Lemma zrange_blocks (n : nat) :
  flat_map (fun v => map (fun z => z + 256 * v) (zrange 256)) (zrange n)
  = zrange (n * 256).
Proof.
  induction n as [|n IH]; [reflexivity|].
  rewrite (zrange_S n), flat_map_app, IH.
  replace (S n * 256)%nat with (n * 256 + 256)%nat by lia.
  rewrite zrange_app. f_equal. cbn [flat_map]. rewrite app_nil_r.
  apply map_ext. intros z. lia.
Qed.

(** The draws of [n] bytes, read as numbers, are 0, 1, ..., 256^n - 1. *)
Lemma allDraws_values (n : nat) :
  map (reduceBytes 0 0) (allDraws n) = zrange (256 ^ n).
Proof.
  induction n as [|n IH]; [reflexivity|].
  cbn [allDraws]. rewrite map_flat_map.
  rewrite (flat_map_ext _
             (fun rest => map (fun z => z + 256 * reduceBytes 0 0 rest)
                              (zrange 256))).
  - rewrite <- (flat_map_map
                  (fun v => map (fun z => z + 256 * v) (zrange 256))
                  (reduceBytes 0 0)).
    rewrite IH, zrange_blocks. f_equal. simpl. lia.
  - intros rest. rewrite <- allBytes_values, !map_map.
    apply map_ext. intros b. apply reduceBytes_cons.
Qed.

Lemma allDraws_length (n : nat) (d : list byte) :
  In d (allDraws n) -> List.length d = n.
Proof.
  revert d; induction n as [|n IH]; intros d; cbn [allDraws].
  - intros [<-|[]]. reflexivity.
  - rewrite in_flat_map. intros (rest & Hr & Hd).
    apply in_map_iff in Hd as (b & <- & _).
    cbn [List.length]. f_equal. now apply IH.
Qed.

(** Among the numbers below [total], those that pass the acceptance test
    and reduce to [k] are [q] many when [q * r] is the acceptance bound. *)
Lemma count_accepted (r q total : nat) (k : Z) :
  (0 < r)%nat -> (q * r <= total)%nat -> 0 <= k < Z.of_nat r ->
  List.length
    (filter (fun x => negb (x >? Z.of_nat q * Z.of_nat r - 1)
                      && (Z.rem x (Z.of_nat r) =? k))
            (zrange total))
  = q.
Proof.
  intros Hr Ht Hk.
  replace total with (q * r + (total - q * r))%nat by lia.
  rewrite zrange_app, filter_app, length_app.
  rewrite (filter_ext_in _ (fun x => x mod Z.of_nat r =? k)).
  - rewrite count_residue by assumption.
    rewrite length_filter_map, length_filter_none; [lia|].
    intros x Hx%in_zrange.
    assert (Hgt : (x + Z.of_nat (q * r) >? Z.of_nat q * Z.of_nat r - 1) = true).
    { apply Z.gtb_lt. rewrite Nat2Z.inj_mul. destruct Hx as [Hx _]. lia. }
    now rewrite Hgt.
  - intros x Hx%in_zrange.
    assert (Hgt : (x >? Z.of_nat q * Z.of_nat r - 1) = false).
    { rewrite Nat2Z.inj_mul in Hx. destruct (Z.gtb_spec x (Z.of_nat q * Z.of_nat r - 1)); [lia|reflexivity]. }
    rewrite Hgt, Z.rem_mod_nonneg by lia. reflexivity.
Qed.

End Counting.

Section Uniformity.

Variables min max : Z.
Hypothesis Hle : min <= max.

Let range := max - min + 1.
Let bytesNeeded := bytesNeededFor range.

Lemma drawsGiving_count (v : Z) :
  min <= v <= max ->
  Z.of_nat (List.length (drawsGiving min max v)) = 256 ^ bytesNeeded / range.
Proof.
  intros Hv.
  assert (Hr : 1 <= range) by (unfold range; lia).
  destruct (bytesNeededFor_spec range Hr) as (Hb & _ & _).
  destruct (maxValidValueFor_spec range Hr) as (Hmv & Hq & Hqr).
  fold bytesNeeded in Hb, Hmv, Hq, Hqr.
  set (q := 256 ^ bytesNeeded / range) in *.
  assert (Htotal : Z.of_nat (256 ^ Z.to_nat bytesNeeded) = 256 ^ bytesNeeded).
  { rewrite Nat2Z.inj_pow, Z2Nat.id by assumption. reflexivity. }
  unfold drawsGiving. fold range. fold bytesNeeded.
  pose (test := fun x => negb (x >? Z.of_nat (Z.to_nat q)
                                    * Z.of_nat (Z.to_nat range) - 1)
                        && (Z.rem x (Z.of_nat (Z.to_nat range)) =? v - min)).
  rewrite (filter_ext _ (fun d => test (reduceBytes 0 0 d))).
  - rewrite <- (length_filter_map test (reduceBytes 0 0)), allDraws_values.
    unfold test. rewrite count_accepted; [lia|lia| |lia].
    apply Nat2Z.inj_le. rewrite Nat2Z.inj_mul, !Z2Nat.id, Htotal by lia.
    exact Hqr.
  - intros d. unfold test, accepted, resultOf. fold range. fold bytesNeeded.
    rewrite Hmv, !Z2Nat.id by lia. f_equal.
    destruct (Z.eqb_spec (min + Z.rem (reduceBytes 0 0 d) range) v);
      destruct (Z.eqb_spec (Z.rem (reduceBytes 0 0 d) range) (v - min));
      try reflexivity; lia.
Qed.

Lemma accepted_iff (d : list byte) :
  accepted min max d = true
  <-> reduceBytes 0 0 d <= maxValidValueFor bytesNeeded range.
Proof.
  unfold accepted. fold range. fold bytesNeeded.
  rewrite negb_true_iff. split; intros H.
  - destruct (Z.gtb_spec (reduceBytes 0 0 d)
                         (maxValidValueFor bytesNeeded range)); [discriminate|lia].
  - destruct (Z.gtb_spec (reduceBytes 0 0 d)
                         (maxValidValueFor bytesNeeded range)); [lia|reflexivity].
Qed.

End Uniformity.

(** C5 (as the code has it): for [min <= max] between the bounds of
    [safeBounds], that is with [- 2 ^ 52 <= min], [max <= 2 ^ 52] and
    [max - min < 2 ^ 48], the helper in double precision computes as over
    the integers; it never throws and returns only values of [[min, max]];
    on a tape it skips the rejected draws and returns the value of the
    first accepted one, so it returns whenever the tape holds an accepted
    draw; every value of [[min, max]] is the result of exactly
    [256 ^ bytesNeeded / range] accepted draws, a number that is at least
    one and does not depend on the value.  For [min > max], whatever the
    bounds, it throws and leaves the tape as it was. *)
Theorem getSecureRandomInt_uniform (min max : Z) :
  (min <= max -> safeBounds min max ->
   let range := max - min + 1 in
   let bytesNeeded := bytesNeededFor range in
   let maxValidValue := maxValidValueFor bytesNeeded range in
   (forall w, getSecureRandomIntIEEE min max w = getSecureRandomInt min max w)
   /\ (forall w v w',
         getSecureRandomIntIEEE min max w = Returns v w' -> min <= v <= max)
   /\ (forall w e w', getSecureRandomIntIEEE min max w <> Throws e w')
   /\ (forall skipped d rest calls,
         Forall (rejectedDraw bytesNeeded maxValidValue) skipped ->
         List.length d = Z.to_nat bytesNeeded ->
         accepted min max d = true ->
         getSecureRandomIntIEEE min max
           (mkWorld (List.concat skipped ++ d ++ rest)%list calls)
         = Returns (resultOf min max d) (mkWorld rest calls))
   /\ (forall v, min <= v <= max ->
         Z.of_nat (List.length (drawsGiving min max v))
         = 256 ^ bytesNeeded / range)
   /\ 1 <= 256 ^ bytesNeeded / range)
  /\ (min > max ->
      forall w,
        getSecureRandomIntIEEE min max w
        = Throws (Error "Error"
                    "Minimum value cannot be greater than maximum value") w).
Proof.
  split.
  - intros Hle Hsafe range bytesNeeded maxValidValue.
    assert (Hexact : forall w,
               getSecureRandomIntIEEE min max w = getSecureRandomInt min max w).
    { intros w. now apply getSecureRandomIntIEEE_exact. }
    split; [exact Hexact|]. split; [|split; [|split; [|split]]].
    + intros w v w'. rewrite Hexact. now apply getSecureRandomInt_in_range.
    + intros w e w'. rewrite Hexact. now apply getSecureRandomInt_no_throw.
    + intros skipped d rest calls Hsk Hd Hacc. rewrite Hexact.
      apply getSecureRandomInt_accepts; try assumption.
      now apply accepted_iff.
    + intros v Hv. now apply drawsGiving_count.
    + assert (Hr : 1 <= range) by (unfold range; lia).
      now destruct (maxValidValueFor_spec range Hr) as (_ & Hq & _).
  - intros Hgt w. unfold getSecureRandomIntIEEE.
    destruct (min >? max) eqn:E; [reflexivity|lia].
Qed.

Lemma getSecureRandomInt_uniform_witness :
  Z.of_nat (List.length (drawsGiving 0 9 7)) = 25
  /\ getSecureRandomIntIEEE 0 9
       (mkWorld [Init.Byte.xff; Init.Byte.xfa; Init.Byte.x2a; Init.Byte.x00] 0)
     = Returns 2 (mkWorld [Init.Byte.x00] 0)
  /\ getSecureRandomIntIEEE 9 0 (mkWorld [Init.Byte.x2a] 0)
     = Throws (Error "Error"
                 "Minimum value cannot be greater than maximum value")
              (mkWorld [Init.Byte.x2a] 0).
Proof.
  assert (H09 : 0 <= 9) by (intro E; discriminate E).
  assert (S09 : safeBounds 0 9) by (repeat split; intro E; discriminate E).
  destruct (getSecureRandomInt_uniform 0 9) as [H _].
  destruct (getSecureRandomInt_uniform 9 0) as [_ H'].
  destruct (H H09 S09) as (_ & _ & _ & Hacc & Hcount & _).
  split; [|split].
  - apply (Hcount 7). split; intro E; discriminate E.
  - apply (Hacc [[Init.Byte.xff]; [Init.Byte.xfa]] [Init.Byte.x2a]
                [Init.Byte.x00] 0%nat).
    + repeat constructor.
    + reflexivity.
    + reflexivity.
  - apply H'. reflexivity.
Defined.

(** The claim C5 as it is written fails at the bounds -1 and 2^53 - 1, the
    largest integer up to which every integer is a double: the range
    2^53 + 1 is rounded to 2^53, so that the helper returns -1 on the tape
    of seven zero bytes but returns the upper bound on no tape at all. *)
Lemma getSecureRandomInt_misses_max :
  -1 <= 2 ^ 53 - 1
  /\ getSecureRandomIntIEEE (-1) (2 ^ 53 - 1)
       (mkWorld (repeat Init.Byte.x00 7) 0)
     = Returns (-1) (mkWorld [] 0)
  /\ forall w v w',
       getSecureRandomIntIEEE (-1) (2 ^ 53 - 1) w = Returns v w' ->
       v <> 2 ^ 53 - 1.
Proof.
  split; [discriminate|]. split; [vm_compute; reflexivity|].
  intros w v w'. unfold getSecureRandomIntIEEE.
  change (-1 >? 2 ^ 53 - 1) with false. cbv iota.
  change (Double.round (Double.round (2 ^ 53 - 1 - -1) + 1)) with (2 ^ 53).
  cbv zeta. unfold bind.
  destruct (doWhileIEEE _ _ w) as [x w1| |]; try discriminate.
  unfold ret. intros E.
  assert (Ev : v = Double.round (-1 + Z.rem x (2 ^ 53))) by congruence.
  pose proof (Z.rem_bound_abs x (2 ^ 53) ltac:(discriminate)) as B.
  change (Z.abs (2 ^ 53)) with (2 ^ 53) in B.
  assert (P53 : 2 ^ 53 = 9007199254740992) by reflexivity.
  destruct (Z.eq_dec (Z.rem x (2 ^ 53)) (- (2 ^ 53 - 1))) as [Er|Er].
  - rewrite Er in Ev. vm_compute in Ev. rewrite Ev, P53. discriminate.
  - rewrite round_small in Ev by lia. lia.
Qed.

(** ** The draws of the generator *)

Section SmallDraws.

Lemma supply_cons (b : byte) (tape : list byte) (calls : nat) :
  supply (mkWorld (b :: tape) calls)
  = ((if plain b then 1 else 0) + supply (mkWorld tape calls))%nat.
Proof. unfold supply. simpl. now destruct (plain b). Qed.

(** One-byte draws: a byte above the bound is never plain. *)
Lemma drawLoop_one_byte (maxValidValue : Z) :
  249 <= maxValidValue ->
  forall (tape : list byte) (calls fuel : nat),
    (List.length tape < fuel)%nat ->
    match drawLoop fuel 1 maxValidValue (mkWorld tape calls) with
    | Returns v w' =>
        (supply (mkWorld tape calls) <= supply w' + 1)%nat
    | Throws _ _ => False
    | Pending => supply (mkWorld tape calls) = 0%nat
    end.
Proof.
  intros Hmv tape; induction tape as [|b tape IH]; intros calls fuel Hf;
    (destruct fuel as [|fuel]; [simpl in Hf; lia|]).
  - reflexivity.
  - cbn [drawLoop]. unfold bind at 1. unfold getRandomValues.
    change (Z.to_nat 1) with 1%nat. cbn [entropy takeBytes checksumCalls].
    rewrite reduceBytes_cons. cbn [reduceBytes].
    rewrite supply_cons. unfold plain.
    destruct (byteValue b + 256 * 0 >? maxValidValue) eqn:E.
    + assert (Hb : (byteValue b <=? 249) = false) by lia. rewrite Hb.
      apply (IH calls fuel). simpl in Hf. lia.
    + unfold ret. destruct (byteValue b <=? 249); lia.
Qed.

Lemma getSecureRandomInt_yields (min max : Z) :
  min <= max ->
  bytesNeededFor (max - min + 1) = 1 ->
  249 <= maxValidValueFor 1 (max - min + 1) ->
  yields (getSecureRandomInt min max) 1 (fun v => min <= v <= max).
Proof.
  intros Hle Hb Hmv w.
  pose proof (getSecureRandomInt_in_range min max Hle w) as Hrange.
  rewrite getSecureRandomInt_unfold in * by assumption.
  unfold bind, doWhile in *. rewrite Hb in *.
  pose proof (drawLoop_one_byte _ Hmv (entropy w) (checksumCalls w)
                (S (List.length (entropy w))) ltac:(lia)) as H.
  destruct w as [tape calls]. cbn [entropy checksumCalls] in *.
  destruct (drawLoop _ 1 _ _) as [x w1| |]; [|assumption|lia].
  split; [now apply (Hrange _ w1)|assumption].
Qed.

Lemma draw_digit : yields (getSecureRandomInt 0 9) 1 (fun v => 0 <= v <= 9).
Proof.
  apply getSecureRandomInt_yields; [lia|reflexivity|vm_compute; discriminate].
Qed.

Lemma draw_char : yields (getSecureRandomInt 0 35) 1 (fun v => 0 <= v <= 35).
Proof.
  apply getSecureRandomInt_yields; [lia|reflexivity|vm_compute; discriminate].
Qed.

Lemma draw_sample : yields (getSecureRandomInt 0 3) 1 (fun v => 0 <= v <= 3).
Proof.
  apply getSecureRandomInt_yields; [lia|reflexivity|vm_compute; discriminate].
Qed.

End SmallDraws.

(** ** The component generators *)

Section Generators.

Lemma toString_digit (d : Z) :
  0 <= d <= 9 -> toString d = String (digitChar d) "".
Proof.
  intros Hd.
  assert (H : forall k, 0 <= k < 100 ->
              (10 <=? k) || String.eqb (toString k) (String (digitChar k) "")
              = true).
  { apply (below_100 (fun k =>
      (10 <=? k) || String.eqb (toString k) (String (digitChar k) ""))).
    vm_compute. reflexivity. }
  specialize (H d ltac:(lia)).
  apply orb_prop in H as [H|H]; [lia|now apply String.eqb_eq].
Qed.

Lemma charAt_chars (i : Z) :
  0 <= i <= 35 ->
  exists c, charAt chars i = String c "" /\ isAlnum c = true.
Proof.
  intros Hi.
  pose (check := fun k =>
    (36 <=? k) || match charAt chars k with
                  | String c EmptyString => isAlnum c
                  | _ => false
                  end).
  assert (H : forall k, 0 <= k < 100 -> check k = true).
  { apply (below_100 check). vm_compute. reflexivity. }
  specialize (H i ltac:(lia)). unfold check in H.
  apply orb_prop in H as [H|H]; [lia|].
  destruct (charAt chars i) as [|c [|? ?]]; try discriminate.
  now exists c.
Qed.

Lemma numericLoop_yields (n : nat) :
  forall acc,
    yields (numericLoop n acc) n
           (fun s => exists t, s = acc ++ t /\ String.length t = n
                               /\ all isDigit t = true).
Proof.
  induction n as [|n IH]; intros acc.
  - apply yields_ret. exists "". now rewrite append_nil_r.
  - cbn [numericLoop]. change (S n) with (1 + n)%nat.
    eapply yields_bind; [exact draw_digit|].
    intros d Hd. cbv beta in Hd. eapply yields_weaken; [apply IH|].
    intros s (t & -> & Hl & Ht). exists (toString d ++ t).
    rewrite append_assoc, (toString_digit d Hd). simpl.
    rewrite Hl, Ht, digitChar_isDigit by lia. auto.
Qed.

Lemma alphanumericLoop_yields (n : nat) :
  forall acc,
    yields (alphanumericLoop n acc) n
           (fun s => exists t, s = acc ++ t /\ String.length t = n
                               /\ all isAlnum t = true).
Proof.
  induction n as [|n IH]; intros acc.
  - apply yields_ret. exists "". now rewrite append_nil_r.
  - cbn [alphanumericLoop]. change (S n) with (1 + n)%nat.
    change (Z.of_nat (String.length chars) - 1) with 35.
    eapply yields_bind; [exact draw_char|].
    intros i Hi. cbv beta in Hi. eapply yields_weaken; [apply IH|].
    intros s (t & -> & Hl & Ht).
    destruct (charAt_chars i Hi) as (c & Hc & Hal).
    exists (charAt chars i ++ t).
    rewrite append_assoc, Hc. simpl. rewrite Hl, Ht, Hal. auto.
Qed.

Lemma generateRandomNumericString_yields (n : Z) :
  0 <= n ->
  yields (generateRandomNumericString n) (Z.to_nat n) (shaped isDigit n).
Proof.
  intros Hn. unfold generateRandomNumericString.
  destruct (n <=? 0) eqn:E.
  - replace n with 0 by lia. apply yields_ret. split; reflexivity.
  - eapply yields_weaken; [apply numericLoop_yields|].
    intros s (t & -> & Hl & Ht). simpl. split; [lia|assumption].
Qed.

Lemma generateRandomAlphanumericString_yields (n : Z) :
  0 <= n ->
  yields (generateRandomAlphanumericString n) (Z.to_nat n) (shaped isAlnum n).
Proof.
  intros Hn. unfold generateRandomAlphanumericString.
  destruct (n <=? 0) eqn:E.
  - replace n with 0 by lia. apply yields_ret. split; reflexivity.
  - eapply yields_weaken; [apply alphanumericLoop_yields|].
    intros s (t & -> & Hl & Ht). simpl. split; [lia|assumption].
Qed.

Lemma shaped_digits_alnum (n : Z) (s : string) :
  shaped isDigit n s -> shaped isAlnum n s.
Proof.
  intros [Hl Hs]. split; [assumption|].
  eapply all_impl; [|exact Hs]. intros c Hc. unfold isAlnum. now rewrite Hc.
Qed.

Lemma shaped_append (p : ascii -> bool) (n m : Z) (s t : string) :
  shaped p n s -> shaped p m t -> shaped p (n + m) (s ++ t).
Proof.
  intros [Hn Hs] [Hm Ht]. split.
  - rewrite length_append. lia.
  - now rewrite all_append, Hs, Ht.
Qed.

Lemma element_in (pool : list string) (i : Z) :
  0 <= i <= Z.of_nat (List.length pool) - 1 -> In (element pool i) pool.
Proof.
  intros Hi. unfold element.
  destruct (i <? 0) eqn:E; [lia|]. apply nth_In. lia.
Qed.

End Generators.

(** ** The registry *)

Lemma registry_facts (c : string) (cfg : IBANCountryConfig) :
  In (c, cfg) countries -> profileFacts c cfg.
Proof.
  intros H. each_country H;
    (split; [reflexivity|reflexivity|reflexivity|split; reflexivity
            |reflexivity|reflexivity|discriminate|reflexivity]).
Qed.

Lemma registered_key (c : string) :
  In c (ObjectKeys countries) -> exists cfg, In (c, cfg) countries.
Proof.
  unfold ObjectKeys. rewrite in_map_iff.
  intros ([k cfg] & <- & H). now exists cfg.
Qed.

Section Orchestrator.

Lemma pool_entry c cfg (bank : string) :
  In (c, cfg) countries ->
  In bank (sampleBankCodes cfg) -> shaped isAlnum (bankCodeLength cfg) bank.
Proof.
  intros Hin Hb. pose proof (pool_shape _ _ (registry_facts _ _ Hin)) as H.
  rewrite forallb_forall in H. specialize (H bank Hb).
  apply andb_prop in H as [Hl Ha]. split; [lia|assumption].
Qed.

Lemma generateBankCode_yields c cfg :
  In (c, cfg) countries ->
  yields (generateBankCode c) 1 (fun s => In s (sampleBankCodes cfg)).
Proof.
  intros Hin. pose proof (registry_facts _ _ Hin) as facts.
  unfold generateBankCode. rewrite (registered _ _ facts).
  pose proof (pool_size _ _ facts) as Hsize. cbv zeta. rewrite Hsize.
  cbn [Nat.ltb Nat.leb]. change (Z.of_nat 4 - 1) with 3.
  change 1%nat with (1 + 0)%nat.
  eapply yields_bind; [exact draw_sample|].
  intros i Hi. apply yields_ret. apply element_in. rewrite Hsize. exact Hi.
Qed.

Lemma generateAccountNumber_yields c cfg :
  In (c, cfg) countries ->
  yields (generateAccountNumber c) (Z.to_nat (accountNumberLength cfg))
         (shaped isAlnum (accountNumberLength cfg)).
Proof.
  intros Hin. unfold generateAccountNumber.
  rewrite (registered _ _ (registry_facts _ _ Hin)). cbv zeta.
  each_country Hin;
    cbn [String.eqb Ascii.eqb Bool.eqb accountNumberLength].
  all: try (eapply yields_weaken;
            [apply generateRandomNumericString_yields; lia
            |apply shaped_digits_alnum]).
  all: try (apply generateRandomAlphanumericString_yields; lia).
  change (Z.to_nat 13) with (11 + (2 + 0))%nat.
  eapply yields_bind; [apply generateRandomAlphanumericString_yields; lia|].
  intros a Ha. eapply yields_bind;
    [apply generateRandomNumericString_yields; lia|].
  intros b Hb. apply yields_ret.
  apply (shaped_append isAlnum 11 2); [assumption|].
  now apply shaped_digits_alnum.
Qed.

End Orchestrator.

(** ** The assembled IBAN *)

Section Assembly.

Lemma substring_0_0 (s : string) : substring 0 0 s = "".
Proof. now destruct s. Qed.

Lemma check_value_range (n : Z) : 2 <= 98 - n mod 97 <= 98.
Proof. pose proof (Z.mod_pos_bound n 97 ltac:(lia)). lia. Qed.

Lemma pad2_twoDigits (k : Z) : 0 <= k < 100 -> twoDigits (pad2 k) = true.
Proof.
  intros Hk. rewrite pad2_digits by assumption. simpl.
  rewrite !digitChar_isDigit; [reflexivity| |].
  - apply Z.mod_pos_bound; lia.
  - split; [apply Z.div_pos; lia|apply Z.div_lt_upper_bound; lia].
Qed.

Lemma twoDigits_shape (cd : string) :
  twoDigits cd = true ->
  exists x y, cd = String x (String y "")
              /\ isDigit x = true /\ isDigit y = true.
Proof.
  destruct cd as [|x [|y [|? ?]]]; try discriminate. simpl.
  intros [Hx Hy]%andb_prop. now exists x, y.
Qed.

Lemma validateGeneratedIBAN_ok c cfg cd bank acct :
  lookup countries c = Some cfg ->
  String.length c = 2%nat ->
  twoDigits cd = true ->
  4 + Z.of_nat (String.length bank) + Z.of_nat (String.length acct)
  = length cfg ->
  validateGeneratedIBAN (c ++ cd ++ bank ++ acct) c = Ok tt.
Proof.
  intros Hl Hc Hcd Hlen. unfold validateGeneratedIBAN. rewrite Hl.
  destruct (twoDigits_shape _ Hcd) as (x & y & -> & Hx & Hy).
  rewrite prefix_append.
  assert (Hn : Z.of_nat (String.length
                           (c ++ String x (String y "") ++ bank ++ acct))
               = length cfg).
  { rewrite !length_append, Hc. simpl String.length. lia. }
  rewrite Hn, Z.eqb_refl. cbn [negb].
  destruct c as [|a [|b [|? ?]]]; try discriminate.
  simpl. rewrite substring_0_0. simpl. now rewrite Hx, Hy.
Qed.

Lemma runCalculateCheckDigits_yields c bank acct cd :
  calculateCheckDigits c bank acct = Ok cd ->
  yields (runCalculateCheckDigits c bank acct) 0 (fun s => s = cd).
Proof.
  intros H w. unfold runCalculateCheckDigits. rewrite H. simpl.
  split; [reflexivity|]. unfold supply. simpl. lia.
Qed.

Lemma yields_need {A} (m : M A) (n n' : nat) (P : A -> Prop) :
  yields m n P -> n = n' -> yields m n' P.
Proof. now intros H <-. Qed.

Lemma generateIBAN_yields c cfg :
  In (c, cfg) countries ->
  yields (generateIBAN c) (1 + Z.to_nat (accountNumberLength cfg))
         (assembled c cfg).
Proof.
  intros Hin. pose proof (registry_facts _ _ Hin) as facts.
  unfold generateIBAN. cbv zeta.
  rewrite (normal_form _ _ facts), (supported _ _ facts).
  change (bind (lift (Ok tt)) ?k) with (k tt). cbv beta.
  apply yields_tryCatch.
  eapply yields_need.
  - eapply yields_bind; [apply (generateBankCode_yields _ _ Hin)|].
    intros bank Hbank.
    eapply yields_bind; [apply (generateAccountNumber_yields _ _ Hin)|].
    intros acct Hacct.
    destruct (pool_entry _ _ _ Hin Hbank) as [Hbl Hba].
    destruct (code_shape _ _ facts) as [Hcl Hca].
    pose proof (calculateCheckDigits_alnum c bank acct Hca Hba (proj2 Hacct))
      as Hcd.
    eapply yields_bind; [apply (runCalculateCheckDigits_yields _ _ _ _ Hcd)|].
    intros cd ->.
    assert (Hval : validateGeneratedIBAN
                     (c ++ pad2 (98 - probeNumeral c bank acct mod 97)
                        ++ bank ++ acct) c = Ok tt).
    { apply (validateGeneratedIBAN_ok c cfg).
      - apply (registered _ _ facts).
      - assumption.
      - apply pad2_twoDigits.
        pose proof (check_value_range (probeNumeral c bank acct)). lia.
      - destruct Hacct as [Hal _]. rewrite Hbl, Hal.
        apply (total_width _ _ facts). }
    rewrite Hval.
    change (bind (lift (Ok tt)) ?k) with (k tt). cbv beta.
    apply yields_ret. exists bank, acct, (pad2 (98 - probeNumeral c bank acct mod 97)).
    repeat split; try assumption; apply Hacct.
  - lia.
Qed.

End Assembly.

Section Validity.

Lemma rearrange_assembled (a b x y : ascii) (body : string) :
  rearrange (String a (String b (String x (String y body))))
  = body ++ String a (String b (String x (String y ""))).
Proof.
  unfold rearrange. cbn [String.length Nat.sub substring].
  now rewrite Nat.sub_0_r, substring_all, substring_0_0.
Qed.

Lemma twoDigits_digits (cd : string) :
  twoDigits cd = true -> all isDigit cd = true.
Proof.
  intros (x & y & -> & Hx & Hy)%twoDigits_shape. simpl. now rewrite Hx, Hy.
Qed.

Lemma digits_alnum (s : string) : all isDigit s = true -> all isAlnum s = true.
Proof.
  apply all_impl. intros ch Hch. unfold isAlnum. now rewrite Hch.
Qed.

Lemma residue_one (X : Z) :
  0 <= X -> Z.rem (X * 100 + (98 - (X * 100) mod 97)) 97 = 1.
Proof.
  intros HX. pose proof (Z.mod_pos_bound (X * 100) 97 ltac:(lia)) as Hm.
  rewrite Z.rem_mod_nonneg by lia.
  pose proof (Z.div_mod (X * 100) 97 ltac:(lia)) as Hd.
  replace (X * 100 + (98 - (X * 100) mod 97))
    with (1 + (X * 100 / 97 + 1) * 97) by lia.
  rewrite Z.mod_add by lia. reflexivity.
Qed.

(** The check digits make the whole numeral congruent to 1. *)
Lemma mod97_assembled (c bank acct : string) :
  String.length c = 2%nat ->
  all isAlnum c = true -> all isAlnum bank = true -> all isAlnum acct = true ->
  let cd := pad2 (98 - probeNumeral c bank acct mod 97) in
  mod97 (c ++ cd ++ bank ++ acct) = Ok 1
  /\ validateIBAN (c ++ cd ++ bank ++ acct) = true.
Proof.
  intros Hcl Hc Hb Ha cd.
  pose proof (check_value_range (probeNumeral c bank acct)) as Hk.
  set (k := 98 - probeNumeral c bank acct mod 97) in *.
  assert (Htwo : twoDigits cd = true) by (apply pad2_twoDigits; lia).
  pose proof (twoDigits_digits _ Htwo) as Hcdd.
  destruct (twoDigits_shape _ Htwo) as (x & y & Ecd & Hx & Hy).
  destruct c as [|a [|b [|? ?]]]; try discriminate.
  assert (Hbody : all isAlnum (bank ++ acct ++ String a (String b "")) = true)
    by (rewrite !all_append, Hb, Ha, Hc; reflexivity).
  pose proof (decimal_nonneg _ 0 (replaceLetters_digits _ Hbody) ltac:(lia))
    as HX.
  split.
  - unfold mod97. rewrite Ecd. cbn [append]. rewrite rearrange_assembled.
    replace ((bank ++ acct) ++ String a (String b (String x (String y ""))))
      with ((bank ++ acct ++ String a (String b "")) ++ cd)
      by (rewrite Ecd, !append_assoc; reflexivity).
    rewrite transliterate_alnum
      by (rewrite all_append, Hbody; now apply digits_alnum).
    cbn [rbind append].
    rewrite replaceLetters_append, (replaceLetters_of_digits cd Hcdd).
    rewrite BigInt_digits.
    + cbn [rbind]. f_equal. rewrite decimal_append.
      unfold cd. rewrite decimal_pad2 by (fold k; lia).
      apply residue_one. assumption.
    + rewrite all_append, Hcdd, replaceLetters_digits by assumption.
      reflexivity.
    + rewrite Ecd. destruct (Legacy.replaceLetters _); discriminate.
  - unfold validateIBAN. rewrite Ecd. cbn [append String.length Nat.sub substring].
    rewrite Nat.sub_0_r, substring_all, !substring_0_0.
    rewrite calculateCheckDigits_alnum;
      [|assumption|now rewrite all_append, Hb, Ha|reflexivity].
    replace (probeNumeral (String a (String b "")) (bank ++ acct) "")
      with (probeNumeral (String a (String b "")) bank acct)
      by (unfold probeNumeral; now rewrite append_assoc).
    fold k. fold cd. rewrite Ecd. apply String.eqb_refl.
Qed.

Lemma assembled_valid c cfg iban :
  In (c, cfg) countries -> assembled c cfg iban ->
  mod97 iban = Ok 1 /\ validateIBAN iban = true.
Proof.
  intros Hin (bank & acct & cd & -> & Hbank & [Hal Haa] & Hcd & _).
  pose proof (registry_facts _ _ Hin) as facts.
  destruct (code_shape _ _ facts) as [Hcl Hca].
  destruct (pool_entry _ _ _ Hin Hbank) as [Hbl Hba].
  rewrite (calculateCheckDigits_alnum c bank acct Hca Hba Haa) in Hcd.
  assert (E : cd = pad2 (98 - probeNumeral c bank acct mod 97))
    by congruence.
  subst cd. now apply mod97_assembled.
Qed.

Lemma assembled_length c cfg iban :
  In (c, cfg) countries -> assembled c cfg iban ->
  Z.of_nat (String.length iban) = length cfg.
Proof.
  intros Hin (bank & acct & cd & -> & Hbank & [Hal Haa] & Hcd & _).
  pose proof (registry_facts _ _ Hin) as facts.
  destruct (code_shape _ _ facts) as [Hcl Hca].
  destruct (pool_entry _ _ _ Hin Hbank) as [Hbl Hba].
  rewrite (calculateCheckDigits_alnum c bank acct Hca Hba Haa) in Hcd.
  assert (E : cd = pad2 (98 - probeNumeral c bank acct mod 97))
    by congruence.
  subst cd.
  pose proof (check_value_range (probeNumeral c bank acct)) as Hk.
  rewrite pad2_digits by lia.
  rewrite !length_append, Hcl. cbn [String.length].
  pose proof (total_width _ _ facts). lia.
Qed.

End Validity.

(** C1: for a supported country code, with its registry entry, whatever
    [generateIBAN] returns on a tape of entropy has ISO 7064 residue 1: the
    first four characters moved to the end, the result transliterated
    (digits to themselves, A..Z to 10..35) and read as a decimal numeral
    leaves 1 modulo 97; and [generateIBAN] does return on every tape that
    still holds one plain byte per draw. *)
Theorem generateIBAN_passes_mod97 (c : string) (cfg : IBANCountryConfig) :
  In (c, cfg) countries ->
  (forall w iban w',
      generateIBAN c w = Returns iban w' -> mod97 iban = Ok 1)
  /\ (forall w,
        (1 + Z.to_nat (accountNumberLength cfg) <= supply w)%nat ->
        exists iban w', generateIBAN c w = Returns iban w').
Proof.
  intros Hin. pose proof (generateIBAN_yields c cfg Hin) as Hy. split.
  - intros w iban w' E. apply (assembled_valid c cfg); [assumption|].
    exact (yields_returns _ _ _ _ _ _ Hy E).
  - intros w Hw. destruct (yields_progress _ _ _ w Hy Hw) as (iban & w' & E & _).
    now exists iban, w'.
Qed.

Lemma generateIBAN_passes_mod97_witness :
  mod97 "NL85ABNA0000000000" = Ok 1.
Proof.
  destruct (generateIBAN_passes_mod97 "NL" _ (or_introl eq_refl)) as [H _].
  apply (H (mkWorld (repeat Init.Byte.x00 11) 0) "NL85ABNA0000000000"
           (mkWorld [] 1)).
  reflexivity.
Defined.

(** The same in the words of the companion operation: [validateIBAN]
    accepts whatever [generateIBAN] returns for a supported country code. *)
Lemma generateIBAN_validates (c : string) (cfg : IBANCountryConfig) :
  In (c, cfg) countries ->
  forall w iban w',
    generateIBAN c w = Returns iban w' -> validateIBAN iban = true.
Proof.
  intros Hin w iban w' E. apply (assembled_valid c cfg); [assumption|].
  exact (yields_returns _ _ _ _ _ _ (generateIBAN_yields c cfg Hin) E).
Qed.

(** C3: for a supported country code, whatever [generateIBAN] returns has
    exactly as many characters as the field [length] of the country's
    registry entry says; and it does return on every tape that still holds
    one plain byte per draw. *)
Theorem generateIBAN_length (c : string) (cfg : IBANCountryConfig) :
  In (c, cfg) countries ->
  (forall w iban w',
      generateIBAN c w = Returns iban w' ->
      Z.of_nat (String.length iban) = length cfg)
  /\ (forall w,
        (1 + Z.to_nat (accountNumberLength cfg) <= supply w)%nat ->
        exists iban w', generateIBAN c w = Returns iban w').
Proof.
  intros Hin. pose proof (generateIBAN_yields c cfg Hin) as Hy. split.
  - intros w iban w' E. apply (assembled_length c cfg); [assumption|].
    exact (yields_returns _ _ _ _ _ _ Hy E).
  - intros w Hw. destruct (yields_progress _ _ _ w Hy Hw) as (iban & w' & E & _).
    now exists iban, w'.
Qed.

Lemma generateIBAN_length_witness :
  Z.of_nat (String.length "FR102004100005AAAAAAAAAAA00") = 27.
Proof.
  destruct (generateIBAN_length "FR" _ (or_intror (or_intror (or_introl eq_refl))))
    as [H _].
  apply (H (mkWorld (repeat Init.Byte.x00 14) 0) "FR102004100005AAAAAAAAAAA00"
           (mkWorld [] 1)).
  reflexivity.
Defined.

(** C7: for a supported country code and every tape of entropy,
    [generateIBAN] throws nothing, and [validateGeneratedIBAN] accepts the
    string assembled from whatever the two generators and the checksum
    engine return. *)
Theorem selfcheck_never_fires (c : string) (cfg : IBANCountryConfig) :
  In (c, cfg) countries ->
  forall w,
    (forall e w', generateIBAN c w <> Throws e w')
    /\ (forall bankCode w1 accountNumber w2 checkDigits w3,
          generateBankCode c w = Returns bankCode w1 ->
          generateAccountNumber c w1 = Returns accountNumber w2 ->
          runCalculateCheckDigits c bankCode accountNumber w2
          = Returns checkDigits w3 ->
          validateGeneratedIBAN
            (c ++ checkDigits ++ bankCode ++ accountNumber) c = Ok tt).
Proof.
  intros Hin w. pose proof (registry_facts _ _ Hin) as facts. split.
  - intros e w'. apply (yields_no_throw _ _ _ _ _ _ (generateIBAN_yields c cfg Hin)).
  - intros bank w1 acct w2 cd w3 Eb Ea Ec.
    pose proof (yields_returns _ _ _ _ _ _ (generateBankCode_yields c cfg Hin) Eb)
      as Hbank.
    pose proof (yields_returns _ _ _ _ _ _
                  (generateAccountNumber_yields c cfg Hin) Ea) as [Hal Haa].
    destruct (code_shape _ _ facts) as [Hcl Hca].
    destruct (pool_entry _ _ _ Hin Hbank) as [Hbl Hba].
    unfold runCalculateCheckDigits in Ec.
    rewrite (calculateCheckDigits_alnum c bank acct Hca Hba Haa) in Ec.
    assert (E : cd = pad2 (98 - probeNumeral c bank acct mod 97))
      by (unfold lift, ret in Ec; congruence).
    subst cd.
    apply (validateGeneratedIBAN_ok c cfg).
    + apply (registered _ _ facts).
    + assumption.
    + apply pad2_twoDigits.
      pose proof (check_value_range (probeNumeral c bank acct)). lia.
    + rewrite Hbl, Hal. apply (total_width _ _ facts).
Qed.

Lemma selfcheck_never_fires_witness :
  validateGeneratedIBAN ("IT" ++ "27" ++ "X0542811101" ++ "AAAAAAAAAAAA") "IT"
  = Ok tt.
Proof.
  destruct (selfcheck_never_fires "IT" _
              (or_intror (or_intror (or_intror (or_intror (or_intror
                 (or_introl eq_refl))))))
              (mkWorld (repeat Init.Byte.x00 13) 0)) as [_ H].
  apply (H "X0542811101" (mkWorld (repeat Init.Byte.x00 12) 0)
           "AAAAAAAAAAAA" (mkWorld [] 0) "27" (mkWorld [] 1));
    reflexivity.
Defined.

(** ** The checksum engine: claims *)

(** C2 (as the code has it): for country code NL, bank code ABNA and account
    number 0417164300 [calculateCheckDigits] returns the string 91. *)
Theorem calculateCheckDigits_reference :
  calculateCheckDigits "NL" "ABNA" "0417164300" = Ok "91".
Proof. vm_compute. reflexivity. Qed.

(** The value 77 that C2 names is not what the code returns. *)
Lemma calculateCheckDigits_reference_not_77 :
  calculateCheckDigits "NL" "ABNA" "0417164300" <> Ok "77".
Proof. vm_compute. discriminate. Qed.

(** C4: on components over the alphabet 0-9, A-Z [calculateCheckDigits]
    returns exactly two decimal digits; their value is 98 minus the residue
    of the probe numeral, lies between 2 and 98, so the output is never 00,
    and a value below 10 is written with a leading zero. *)
Theorem calculateCheckDigits_two_digits (countryCode bankCode accountNumber : string) :
  all isAlnum countryCode = true ->
  all isAlnum bankCode = true ->
  all isAlnum accountNumber = true ->
  exists d1 d2 : ascii,
    calculateCheckDigits countryCode bankCode accountNumber
    = Ok (String d1 (String d2 ""))
    /\ isDigit d1 = true /\ isDigit d2 = true
    /\ (let v := 10 * (code d1 - 48) + (code d2 - 48) in
        2 <= v <= 98
        /\ v = 98 - probeNumeral countryCode bankCode accountNumber mod 97
        /\ (v < 10 -> d1 = "0"%char))
    /\ String d1 (String d2 "") <> "00".
Proof.
  intros Hc Hb Ha.
  pose proof (check_value_range (probeNumeral countryCode bankCode accountNumber))
    as Hk.
  set (k := 98 - probeNumeral countryCode bankCode accountNumber mod 97) in *.
  assert (Hq : 0 <= k / 10 < 10)
    by (split; [apply Z.div_pos; lia|apply Z.div_lt_upper_bound; lia]).
  pose proof (Z.mod_pos_bound k 10 ltac:(lia)) as Hr.
  pose proof (Z.div_mod k 10 ltac:(lia)) as Hdm.
  exists (digitChar (k / 10)), (digitChar (k mod 10)).
  rewrite calculateCheckDigits_alnum by assumption. fold k.
  rewrite pad2_digits by lia.
  assert (Hv : 10 * (code (digitChar (k / 10)) - 48)
               + (code (digitChar (k mod 10)) - 48) = k)
    by (rewrite !code_digitChar by lia; lia).
  repeat split; try (apply digitChar_isDigit; lia); cbv zeta;
    try rewrite Hv; try lia.
  - intros Hlt. replace (k / 10) with 0; [reflexivity|].
    symmetry. apply Z.div_small. lia.
  - intros E. injection E as E1 E2.
    apply (f_equal code) in E1, E2.
    rewrite code_digitChar in E1, E2 by lia.
    change (code "0") with 48 in E1, E2. lia.
Qed.

Lemma calculateCheckDigits_two_digits_witness :
  exists d1 d2 : ascii,
    calculateCheckDigits "NL" "ABNA" "0000000039"
    = Ok (String d1 (String d2 ""))
    /\ isDigit d1 = true /\ isDigit d2 = true
    /\ (let v := 10 * (code d1 - 48) + (code d2 - 48) in
        2 <= v <= 98
        /\ v = 98 - probeNumeral "NL" "ABNA" "0000000039" mod 97
        /\ (v < 10 -> d1 = "0"%char))
    /\ String d1 (String d2 "") <> "00".
Proof.
  apply (calculateCheckDigits_two_digits "NL" "ABNA" "0000000039");
    reflexivity.
Defined.

(** C10: on a country code, bank code and account number over the alphabet
    0-9, A-Z the earlier [calculateCheckDigits] returns the same string as
    the current one. *)
Theorem legacy_calculateCheckDigits_agrees
        (countryCode bankCode accountNumber : string) :
  all isAlnum countryCode = true ->
  all isAlnum bankCode = true ->
  all isAlnum accountNumber = true ->
  Legacy.calculateCheckDigits countryCode bankCode accountNumber
  = calculateCheckDigits countryCode bankCode accountNumber.
Proof.
  intros Hc Hb Ha.
  rewrite legacy_calculateCheckDigits_alnum, calculateCheckDigits_alnum
    by assumption.
  reflexivity.
Qed.

Lemma legacy_calculateCheckDigits_agrees_witness :
  Legacy.calculateCheckDigits "GB" "BARC200000" "55779911"
  = calculateCheckDigits "GB" "BARC200000" "55779911".
Proof.
  apply (legacy_calculateCheckDigits_agrees "GB" "BARC200000" "55779911");
    reflexivity.
Defined.

(** ** The sample pools *)

(** The pools of the registry: none is empty, every entry has the width
    [bankCodeLength] of its country, [generateBankCode] returns an entry of
    the pool and never throws, and outside FR the entries of a pool are
    pairwise distinct. *)
Lemma sampleBankCodes_facts (c : string) (cfg : IBANCountryConfig) :
  In (c, cfg) countries ->
  sampleBankCodes cfg <> []
  /\ Forall (fun bank => Z.of_nat (String.length bank) = bankCodeLength cfg)
            (sampleBankCodes cfg)
  /\ (forall w bank w', generateBankCode c w = Returns bank w' ->
                        In bank (sampleBankCodes cfg))
  /\ (forall w e w', generateBankCode c w <> Throws e w')
  /\ (c <> "FR" -> NoDup (sampleBankCodes cfg)).
Proof.
  intros Hin. pose proof (generateBankCode_yields c cfg Hin) as Hy.
  split; [|split; [|split; [|split]]].
  - pose proof (pool_size _ _ (registry_facts _ _ Hin)) as Hs.
    intros E. rewrite E in Hs. discriminate.
  - apply Forall_forall. intros bank Hb.
    now destruct (pool_entry _ _ _ Hin Hb).
  - intros w bank w' E. exact (yields_returns _ _ _ _ _ _ Hy E).
  - intros w e w'. exact (yields_no_throw _ _ _ _ _ _ Hy).
  - intros Hfr. each_country Hin; try congruence;
      cbn [sampleBankCodes];
      repeat (constructor; [cbn [In]; intuition discriminate|]);
      constructor.
Qed.

(** C9 at FR: the pool of FR lists 2004100005 at positions 0 and 3, so its
    entries are not pairwise distinct, and [generateBankCode] returns that
    code for two of the four indices it can draw. *)
Theorem FR_sampleBankCodes_repeat :
  exists cfg,
    lookup countries "FR" = Some cfg
    /\ nth_error (sampleBankCodes cfg) 0 = Some "2004100005"
    /\ nth_error (sampleBankCodes cfg) 3 = Some "2004100005"
    /\ ~ NoDup (sampleBankCodes cfg)
    /\ generateBankCode "FR" (mkWorld [Init.Byte.x00] 0)
       = Returns "2004100005" (mkWorld [] 0)
    /\ generateBankCode "FR" (mkWorld [Init.Byte.x03] 0)
       = Returns "2004100005" (mkWorld [] 0).
Proof.
  eexists. split; [reflexivity|]. cbn [sampleBankCodes].
  repeat split.
  intros H. inversion H as [|? ? Hn _]; subst. apply Hn. cbn [In]. tauto.
Qed.

(** ** Normalising the country code *)

Section Normalising.

Lemma upperChar_idem (c : ascii) : upperChar (upperChar c) = upperChar c.
Proof. destruct c as [[] [] [] [] [] [] [] []]; reflexivity. Qed.

Lemma upperChar_space (c : ascii) :
  isWhiteSpace (upperChar c) = isWhiteSpace c.
Proof. destruct c as [[] [] [] [] [] [] [] []]; reflexivity. Qed.

Lemma upperChar_notLower (c : ascii) : notLower (upperChar c) = true.
Proof. destruct c as [[] [] [] [] [] [] [] []]; reflexivity. Qed.

Lemma toUpperCase_idem (s : string) :
  toUpperCase (toUpperCase s) = toUpperCase s.
Proof.
  induction s as [|c s IH]; simpl; [reflexivity|].
  now rewrite upperChar_idem, IH.
Qed.

Lemma toUpperCase_notLower (s : string) :
  all notLower (toUpperCase s) = true.
Proof.
  induction s as [|c s IH]; simpl; [reflexivity|].
  now rewrite upperChar_notLower, IH.
Qed.

Lemma toUpperCase_trimStart (s : string) :
  toUpperCase (trimStart s) = trimStart (toUpperCase s).
Proof.
  induction s as [|c s IH]; simpl; [reflexivity|].
  rewrite upperChar_space. now destruct (isWhiteSpace c).
Qed.

Lemma toUpperCase_trimEnd (s : string) :
  toUpperCase (trimEnd s) = trimEnd (toUpperCase s).
Proof.
  induction s as [|c s IH]; simpl; [reflexivity|].
  rewrite <- IH, upperChar_space.
  destruct (trimEnd s); simpl; [now destruct (isWhiteSpace c)|reflexivity].
Qed.

(** Upper-casing and trimming commute. *)
Lemma toUpperCase_trim (s : string) :
  toUpperCase (trim s) = trim (toUpperCase s).
Proof. unfold trim. now rewrite toUpperCase_trimEnd, toUpperCase_trimStart. Qed.

Lemma trimEnd_idem (s : string) : trimEnd (trimEnd s) = trimEnd s.
Proof.
  induction s as [|c s IH]; simpl; [reflexivity|].
  destruct (trimEnd s) as [|c' s'] eqn:E.
  - destruct (isWhiteSpace c) eqn:Ec; simpl; [reflexivity|now rewrite Ec].
  - cbn [trimEnd]. cbn [trimEnd] in IH. rewrite IH. reflexivity.
Qed.

Lemma trimStart_leftTrimmed (s : string) : leftTrimmed (trimStart s).
Proof.
  induction s as [|c s IH]; simpl; [exact I|].
  destruct (isWhiteSpace c) eqn:E; [assumption|exact E].
Qed.

Lemma trimStart_fixed (s : string) : leftTrimmed s -> trimStart s = s.
Proof. destruct s as [|c s]; simpl; [reflexivity|]. now intros ->. Qed.

Lemma trimEnd_leftTrimmed (s : string) :
  leftTrimmed s -> leftTrimmed (trimEnd s).
Proof.
  destruct s as [|c s]; simpl; [exact id|].
  intros Hc. destruct (trimEnd s); [now rewrite Hc|assumption].
Qed.

Lemma trim_idem (s : string) : trim (trim s) = trim s.
Proof.
  unfold trim. rewrite (trimStart_fixed (trimEnd (trimStart s))).
  - apply trimEnd_idem.
  - apply trimEnd_leftTrimmed, trimStart_leftTrimmed.
Qed.

(** The normal form of the orchestrator is a fixed point of normalising. *)
Lemma normalize_idem (s : string) :
  trim (toUpperCase (trim (toUpperCase s))) = trim (toUpperCase s).
Proof. now rewrite toUpperCase_trim, toUpperCase_idem, trim_idem. Qed.

Lemma trimStart_all (p : ascii -> bool) (s : string) :
  all p s = true -> all p (trimStart s) = true.
Proof.
  induction s as [|c s IH]; simpl; [reflexivity|].
  intros H. destruct (isWhiteSpace c); [|exact H].
  apply andb_prop in H as [_ H]. now apply IH.
Qed.

Lemma trimEnd_all (p : ascii -> bool) (s : string) :
  all p s = true -> all p (trimEnd s) = true.
Proof.
  induction s as [|c s IH]; simpl; [reflexivity|].
  intros [Hc Hs]%andb_prop. specialize (IH Hs).
  destruct (trimEnd s).
  - destruct (isWhiteSpace c); simpl; [reflexivity|now rewrite Hc].
  - cbn [all]. cbn [all] in IH. now rewrite Hc, IH.
Qed.

Lemma normalized_notLower (s : string) :
  all notLower (trim (toUpperCase s)) = true.
Proof. apply trimEnd_all, trimStart_all, toUpperCase_notLower. Qed.

(** No inherited property name is written without small letters, so the
    [in] test on an upper-cased string sees only the registry's own keys. *)
Lemma prototype_keys_unreachable (n : string) :
  all notLower n = true -> member n ObjectPrototypeKeys = false.
Proof.
  intros Hn. destruct (member n ObjectPrototypeKeys) eqn:E; [|reflexivity].
  unfold member in E. apply existsb_exists in E as (k & Hk & ->%String.eqb_eq).
  cbn [ObjectPrototypeKeys In] in Hk.
  repeat (destruct Hk as [<-|Hk]; [discriminate Hn|]). contradiction.
Qed.



(** [generateIBAN] sees its argument only through the normal form. *)
Lemma generateIBAN_normalized (s t : string) :
  trim (toUpperCase s) = trim (toUpperCase t) ->
  generateIBAN s = generateIBAN t.
Proof. intros H. unfold generateIBAN. now rewrite H. Qed.

End Normalising.






(** * Further properties of the generator *)

(** ** The shape of a generated IBAN *)

Section Shape.

Lemma substring_skip (a b : string) (n : nat) :
  substring (String.length a) n (a ++ b) = substring 0 n b.
Proof. induction a as [|ch a IH]; simpl; [reflexivity|exact IH]. Qed.

Lemma substring_take (b r : string) :
  substring 0 (String.length b) (b ++ r) = b.
Proof.
  induction b as [|ch b IH]; simpl; [apply substring_0_0|now rewrite IH].
Qed.

Lemma validateGeneratedIBAN_sound (iban c : string) (cfg : IBANCountryConfig) :
  lookup countries c = Some cfg ->
  validateGeneratedIBAN iban c = Ok tt ->
  Z.of_nat (String.length iban) = length cfg
  /\ prefix c iban = true
  /\ twoDigits (substring 2 2 iban) = true.
Proof.
  intros Hl. unfold validateGeneratedIBAN. rewrite Hl.
  destruct (Z.eqb_spec (Z.of_nat (String.length iban)) (length cfg));
    cbn [negb]; [|discriminate].
  destruct (prefix c iban); cbn [negb]; [|discriminate].
  destruct (twoDigits (substring 2 2 iban)); cbn [negb]; [|discriminate].
  auto.
Qed.

(** The parts of an assembled IBAN, character by character. *)
Lemma assembled_parts c cfg iban :
  In (c, cfg) countries -> assembled c cfg iban ->
  exists a b x y bank acct,
    c = String a (String b "")
    /\ iban = String a (String b (String x (String y (bank ++ acct))))
    /\ isAlnum a = true /\ isAlnum b = true
    /\ isDigit x = true /\ isDigit y = true
    /\ In bank (sampleBankCodes cfg)
    /\ shaped isAlnum (bankCodeLength cfg) bank
    /\ shaped isAlnum (accountNumberLength cfg) acct.
Proof.
  intros Hin (bank & acct & cd & -> & Hbank & Hacct & Hcd & _).
  pose proof (registry_facts _ _ Hin) as facts.
  destruct (code_shape _ _ facts) as [Hcl Hca].
  pose proof (pool_entry _ _ _ Hin Hbank) as Hb.
  rewrite (calculateCheckDigits_alnum c bank acct Hca (proj2 Hb) (proj2 Hacct))
    in Hcd.
  assert (E : cd = pad2 (98 - probeNumeral c bank acct mod 97)) by congruence.
  pose proof (check_value_range (probeNumeral c bank acct)) as Hk.
  assert (Htwo : twoDigits cd = true)
    by (rewrite E; apply pad2_twoDigits; lia).
  destruct (twoDigits_shape _ Htwo) as (x & y & -> & Hx & Hy).
  destruct c as [|a [|b [|? ?]]]; try discriminate.
  cbn [all] in Hca. apply andb_prop in Hca as [Ha [Hb' _]%andb_prop].
  exists a, b, x, y, bank, acct. repeat split; try assumption; apply Hb || apply Hacct.
Qed.

End Shape.

(** X1: whatever [generateIBAN] returns for a supported country code starts
    with that code, carries two decimal digits at positions 2 and 3, and
    carries at positions 4 onwards, over the width [bankCodeLength], one of
    the sample bank codes of the country. *)
Theorem generateIBAN_layout (c : string) (cfg : IBANCountryConfig) :
  In (c, cfg) countries ->
  forall w iban w',
    generateIBAN c w = Returns iban w' ->
    prefix c iban = true
    /\ twoDigits (substring 2 2 iban) = true
    /\ In (substring 4 (Z.to_nat (bankCodeLength cfg)) iban)
          (sampleBankCodes cfg).
Proof.
  intros Hin w iban w' E.
  pose proof (yields_returns _ _ _ _ _ _ (generateIBAN_yields c cfg Hin) E)
    as Has.
  destruct (assembled_parts c cfg iban Hin Has)
    as (a & b & x & y & bank & acct & -> & -> & _ & _ & Hx & Hy & Hbank
        & [Hbl _] & _).
  split; [|split].
  - exact (prefix_append (String a (String b ""))
                         (String x (String y (bank ++ acct)))).
  - cbn [substring]. rewrite substring_0_0. cbn [twoDigits].
    now rewrite Hx, Hy.
  - cbn [substring]. rewrite <- Hbl, Nat2Z.id, substring_take. exact Hbank.
Qed.

Lemma generateIBAN_layout_witness :
  prefix "GB" "GB98ABBY06000100000000" = true
  /\ twoDigits (substring 2 2 "GB98ABBY06000100000000") = true
  /\ In (substring 4 10 "GB98ABBY06000100000000")
        ["ABBY060001"; "BARC200000"; "HBUK400003"; "LOYD309634"].
Proof.
  apply (generateIBAN_layout "GB" _
           (or_intror (or_intror (or_intror (or_introl eq_refl))))
           (mkWorld (repeat Init.Byte.x00 9) 0) "GB98ABBY06000100000000"
           (mkWorld [] 1)).
  reflexivity.
Defined.

(** X2: whatever [generateIBAN] returns for a supported country code is
    written in decimal digits and the capital letters A to Z only. *)
Theorem generateIBAN_alphabet (c : string) (cfg : IBANCountryConfig) :
  In (c, cfg) countries ->
  forall w iban w',
    generateIBAN c w = Returns iban w' -> all isAlnum iban = true.
Proof.
  intros Hin w iban w' E.
  pose proof (yields_returns _ _ _ _ _ _ (generateIBAN_yields c cfg Hin) E)
    as Has.
  destruct (assembled_parts c cfg iban Hin Has)
    as (a & b & x & y & bank & acct & _ & -> & Ha & Hb & Hx & Hy & _
        & [_ Hbank] & [_ Hacct]).
  cbn [all]. rewrite all_append, Ha, Hb, Hbank, Hacct.
  unfold isAlnum. now rewrite Hx, Hy.
Qed.

Lemma generateIBAN_alphabet_witness :
  all isAlnum "IT27X0542811101AAAAAAAAAAAA" = true.
Proof.
  apply (generateIBAN_alphabet "IT" _
           (or_intror (or_intror (or_intror (or_intror (or_intror
              (or_introl eq_refl))))))
           (mkWorld (repeat Init.Byte.x00 13) 0) "IT27X0542811101AAAAAAAAAAAA"
           (mkWorld [] 1)).
  reflexivity.
Defined.

(** ** Account numbers and random strings *)

(** X3: for a supported country code [generateAccountNumber] never throws;
    what it returns has the layout of the country: 11 characters of 0-9, A-Z
    followed by 2 decimal digits for FR, 12 characters of 0-9, A-Z for IT
    and CH, and [accountNumberLength] decimal digits for every other
    country; and it returns on every tape that holds [accountNumberLength]
    plain bytes. *)
Theorem generateAccountNumber_layout (c : string) (cfg : IBANCountryConfig) :
  In (c, cfg) countries ->
  (forall w e w', generateAccountNumber c w <> Throws e w')
  /\ (forall w accountNumber w',
        generateAccountNumber c w = Returns accountNumber w' ->
        accountShape c cfg accountNumber)
  /\ (forall w,
        (Z.to_nat (accountNumberLength cfg) <= supply w)%nat ->
        exists accountNumber w',
          generateAccountNumber c w = Returns accountNumber w').
Proof.
  intros Hin.
  assert (Hy : yields (generateAccountNumber c)
                      (Z.to_nat (accountNumberLength cfg))
                      (accountShape c cfg)).
  { unfold generateAccountNumber, accountShape.
    rewrite (registered _ _ (registry_facts _ _ Hin)). cbv zeta.
    each_country Hin;
      cbn [String.eqb Ascii.eqb Bool.eqb accountNumberLength orb].
    all: try (apply generateRandomNumericString_yields; lia).
    all: try (apply generateRandomAlphanumericString_yields; lia).
    change (Z.to_nat 13) with (11 + (2 + 0))%nat.
    eapply yields_bind; [apply generateRandomAlphanumericString_yields; lia|].
    intros a Ha. eapply yields_bind;
      [apply generateRandomNumericString_yields; lia|].
    intros b Hb. apply yields_ret. now exists a, b. }
  split; [|split].
  - intros w e w'. exact (yields_no_throw _ _ _ _ _ _ Hy).
  - intros w acct w' E. exact (yields_returns _ _ _ _ _ _ Hy E).
  - intros w Hw. destruct (yields_progress _ _ _ w Hy Hw) as (a & w' & E & _).
    now exists a, w'.
Qed.

Lemma generateAccountNumber_layout_witness :
  accountShape "FR" (mkConfig "France" 27 "FR2!n5!n5!n11!c2!n" 10 13
                       ["2004100005"; "3000200009"; "1027800002"; "2004100005"])
               "AAAAAAAAAAA00".
Proof.
  destruct (generateAccountNumber_layout "FR" _
              (or_intror (or_intror (or_introl eq_refl)))) as (_ & H & _).
  apply (H (mkWorld (repeat Init.Byte.x00 13) 0) "AAAAAAAAAAA00"
           (mkWorld [] 0)).
  reflexivity.
Defined.

(** X7: [generateRandomNumericString] returns the empty string, and draws
    nothing, for a length of zero or less; for a positive length [n] it
    never throws, returns exactly [n] decimal digits, and returns on every
    tape that holds [n] plain bytes. *)
Theorem generateRandomNumericString_digits (n : Z) :
  (n <= 0 -> forall w, generateRandomNumericString n w = Returns "" w)
  /\ (0 < n ->
      (forall w e w', generateRandomNumericString n w <> Throws e w')
      /\ (forall w s w',
            generateRandomNumericString n w = Returns s w' ->
            Z.of_nat (String.length s) = n /\ all isDigit s = true)
      /\ (forall w, (Z.to_nat n <= supply w)%nat ->
                    exists s w', generateRandomNumericString n w = Returns s w')).
Proof.
  split.
  - intros Hn w. unfold generateRandomNumericString.
    destruct (n <=? 0) eqn:E; [reflexivity|lia].
  - intros Hn.
    pose proof (generateRandomNumericString_yields n ltac:(lia)) as Hy.
    split; [|split].
    + intros w e w'. exact (yields_no_throw _ _ _ _ _ _ Hy).
    + intros w s w' E. exact (yields_returns _ _ _ _ _ _ Hy E).
    + intros w Hw. destruct (yields_progress _ _ _ w Hy Hw) as (s & w' & E & _).
      now exists s, w'.
Qed.

Lemma generateRandomNumericString_digits_witness :
  generateRandomNumericString (-3) (mkWorld [Init.Byte.x07] 0)
  = Returns "" (mkWorld [Init.Byte.x07] 0)
  /\ Z.of_nat (String.length "753") = 3 /\ all isDigit "753" = true.
Proof.
  destruct (generateRandomNumericString_digits (-3)) as [H0 _].
  destruct (generateRandomNumericString_digits 3) as [_ H3].
  split.
  - apply H0. intro E; discriminate E.
  - destruct (H3 eq_refl) as (_ & H & _).
    apply (H (mkWorld [Init.Byte.x07; Init.Byte.xff; Init.Byte.x0f;
                       Init.Byte.x03] 0) "753" (mkWorld [] 0)).
    reflexivity.
Defined.

(** X8: [generateRandomAlphanumericString] returns the empty string, and
    draws nothing, for a length of zero or less; for a positive length [n]
    it never throws, returns exactly [n] characters of 0-9, A-Z (never the
    word undefined), and returns on every tape that holds [n] plain bytes. *)
Theorem generateRandomAlphanumericString_chars (n : Z) :
  (n <= 0 -> forall w, generateRandomAlphanumericString n w = Returns "" w)
  /\ (0 < n ->
      (forall w e w', generateRandomAlphanumericString n w <> Throws e w')
      /\ (forall w s w',
            generateRandomAlphanumericString n w = Returns s w' ->
            Z.of_nat (String.length s) = n /\ all isAlnum s = true)
      /\ (forall w, (Z.to_nat n <= supply w)%nat ->
                    exists s w',
                      generateRandomAlphanumericString n w = Returns s w')).
Proof.
  split.
  - intros Hn w. unfold generateRandomAlphanumericString.
    destruct (n <=? 0) eqn:E; [reflexivity|lia].
  - intros Hn.
    pose proof (generateRandomAlphanumericString_yields n ltac:(lia)) as Hy.
    split; [|split].
    + intros w e w'. exact (yields_no_throw _ _ _ _ _ _ Hy).
    + intros w s w' E. exact (yields_returns _ _ _ _ _ _ Hy E).
    + intros w Hw. destruct (yields_progress _ _ _ w Hy Hw) as (s & w' & E & _).
      now exists s, w'.
Qed.

Lemma generateRandomAlphanumericString_chars_witness :
  generateRandomAlphanumericString 0 (mkWorld [] 0) = Returns "" (mkWorld [] 0)
  /\ Z.of_nat (String.length "Z9") = 2 /\ all isAlnum "Z9" = true.
Proof.
  destruct (generateRandomAlphanumericString_chars 0) as [H0 _].
  destruct (generateRandomAlphanumericString_chars 2) as [_ H2].
  split.
  - apply H0. intro E; discriminate E.
  - destruct (H2 eq_refl) as (_ & H & _).
    apply (H (mkWorld [Init.Byte.x19; Init.Byte.xfe; Init.Byte.x23] 0) "Z9"
             (mkWorld [] 0)).
    reflexivity.
Defined.

(** X6: when the two bounds are equal [getSecureRandomInt] returns the
    bound at once: the tape is not read, so it returns on the empty tape
    too. *)
Theorem getSecureRandomInt_single (n : Z) (w : World) :
  getSecureRandomInt n n w = Returns n w.
Proof.
  unfold getSecureRandomInt.
  destruct (n >? n) eqn:E; [lia|].
  replace (n - n + 1) with 1 by lia.
  destruct w as [tape calls]. unfold bind, doWhile.
  change (bytesNeededFor 1) with 0.
  change (maxValidValueFor 0 1) with 0.
  cbn [entropy drawLoop]. unfold bind, getRandomValues.
  change (Z.to_nat 0) with 0%nat. cbn [entropy takeBytes checksumCalls reduceBytes].
  cbn [Z.gtb Z.compare]. unfold ret. f_equal. rewrite Z.rem_1_r. lia.
Qed.

(** ** Country codes and the registry *)

Section Registry.

Lemma member_In (key : string) (keys : list string) :
  member key keys = true <-> In key keys.
Proof.
  unfold member. rewrite existsb_exists. split.
  - intros (k & Hk & ->%String.eqb_eq). exact Hk.
  - intros Hk. exists key. split; [exact Hk|apply String.eqb_refl].
Qed.

Lemma member_not_In (key : string) (keys : list string) :
  member key keys = false <-> ~ In key keys.
Proof.
  rewrite <- member_In. destruct (member key keys); split; congruence.
Qed.

(** Reading an object literal: a key that is found is listed with the value
    found, and a listed key is found when the keys are pairwise distinct. *)
Lemma lookup_In (o : list (string * IBANCountryConfig)) key cfg :
  lookup o key = Some cfg -> In (key, cfg) o.
Proof.
  induction o as [|[k v] o IH]; simpl; [discriminate|].
  destruct (String.eqb_spec key k) as [->|Hne].
  - intros [= ->]. now left.
  - intros H. right. now apply IH.
Qed.

Lemma In_lookup (o : list (string * IBANCountryConfig)) key cfg :
  NoDup (ObjectKeys o) -> In (key, cfg) o -> lookup o key = Some cfg.
Proof.
  induction o as [|[k v] o IH]; simpl; [contradiction|].
  intros Hnd [E|Hin]; inversion Hnd as [|? ? Hnotin Hnd']; subst.
  - injection E as -> ->. now rewrite String.eqb_refl.
  - destruct (String.eqb_spec key k) as [->|Hne]; [|now apply IH].
    exfalso. apply Hnotin. unfold ObjectKeys.
    apply in_map_iff. now exists (k, cfg).
Qed.

Lemma countries_keys_distinct : NoDup (ObjectKeys countries).
Proof.
  cbn [ObjectKeys countries map fst].
  repeat (constructor; [cbn [In]; intuition discriminate|]). constructor.
Qed.

End Registry.

(** X12: the codes that [getAvailableCountries] lists are pairwise
    distinct; for each of them [getCountryConfig] finds the entry that the
    registry lists under the code, [isValidCountryCode] and
    [validateCountryCode] accept it, and trimming and upper-casing leave it
    as it is. *)
Theorem getAvailableCountries_configured (c : string) :
  NoDup getAvailableCountries
  /\ (In c getAvailableCountries ->
      (exists cfg, getCountryConfig c = Some cfg /\ In (c, cfg) countries)
      /\ isValidCountryCode c = true
      /\ validateCountryCode c = Ok tt
      /\ trim (toUpperCase c) = c).
Proof.
  unfold getAvailableCountries, getCountryConfig.
  split; [exact countries_keys_distinct|].
  intros Hin. destruct (registered_key _ Hin) as (cfg & Hcfg).
  pose proof (registry_facts _ _ Hcfg) as facts.
  split; [|split; [|split]].
  - exists cfg. split; [|exact Hcfg].
    now apply In_lookup; [exact countries_keys_distinct|].
  - unfold isValidCountryCode.
    now rewrite (proj2 (member_In c (ObjectKeys countries)) Hin).
  - exact (supported _ _ facts).
  - exact (normal_form _ _ facts).
Qed.

Lemma getAvailableCountries_configured_witness :
  (exists cfg, getCountryConfig "CH" = Some cfg /\ In ("CH", cfg) countries)
  /\ isValidCountryCode "CH" = true
  /\ validateCountryCode "CH" = Ok tt
  /\ trim (toUpperCase "CH") = "CH".
Proof.
  destruct (getAvailableCountries_configured "CH") as [_ H].
  apply H. do 7 right. left. reflexivity.
Defined.

(** X13: [validateCountryCode] accepts a string exactly when the string is
    not empty and its upper-cased form is one of the codes of the registry
    (so it accepts nl as well as NL); the names that the registry object
    inherits never pass, and [isValidCountryCode] on an upper-cased string
    is membership in the registry. *)
Theorem validateCountryCode_accepts (countryCode : string) :
  (validateCountryCode countryCode = Ok tt
   <-> countryCode <> ""
       /\ In (toUpperCase countryCode) getAvailableCountries)
  /\ (isValidCountryCode (toUpperCase countryCode) = true
      <-> In (toUpperCase countryCode) getAvailableCountries).
Proof.
  assert (Hvalid : isValidCountryCode (toUpperCase countryCode) = true
                   <-> In (toUpperCase countryCode) getAvailableCountries).
  { unfold isValidCountryCode, getAvailableCountries.
    rewrite (prototype_keys_unreachable _ (toUpperCase_notLower countryCode)).
    rewrite orb_false_r. apply member_In. }
  split; [|exact Hvalid].
  unfold validateCountryCode.
  destruct (String.eqb_spec countryCode "") as [->|Hne].
  - split; [discriminate|]. intros [H _]. now contradiction H.
  - destruct (isValidCountryCode (toUpperCase countryCode)) eqn:E; cbn [negb].
    + split; [|reflexivity]. intros _. split; [assumption|now apply Hvalid].
    + split; [discriminate|]. intros [_ H%Hvalid]. discriminate.
Qed.

(** The two ways in which [generateIBAN] turns a country code down. *)
Lemma generateIBAN_rejects (s : string) (w : World) :
  ~ In (trim (toUpperCase s)) (ObjectKeys countries) ->
  generateIBAN s w
  = Throws (if String.eqb (trim (toUpperCase s)) ""
            then IBANGenerationError "Country code is required" None
            else IBANGenerationError
                   ("Country code '" ++ trim (toUpperCase s)
                    ++ "' is not supported. Supported codes: "
                    ++ join ", " (ObjectKeys countries))
                   (Some (trim (toUpperCase s))))
           w.
Proof.
  set (n := trim (toUpperCase s)).
  intros Hnot. unfold generateIBAN. fold n. cbv zeta.
  unfold validateCountryCode.
  destruct (String.eqb_spec n "") as [E|Hne]; [reflexivity|].
  assert (Hup : toUpperCase n = n)
    by (unfold n; now rewrite toUpperCase_trim, toUpperCase_idem).
  unfold isValidCountryCode. rewrite Hup.
  rewrite (proj2 (member_not_In n (ObjectKeys countries)) Hnot).
  rewrite prototype_keys_unreachable by apply normalized_notLower.
  reflexivity.
Qed.

Lemma generateIBAN_accepts (s : string) (w : World) :
  In (trim (toUpperCase s)) (ObjectKeys countries) ->
  forall e w', generateIBAN s w <> Throws e w'.
Proof.
  intros Hin e w'.
  destruct (registered_key _ Hin) as (cfg & Hcfg).
  rewrite (generateIBAN_normalized s (trim (toUpperCase s)))
    by (now rewrite normalize_idem).
  exact (yields_no_throw _ _ _ _ _ _ (generateIBAN_yields _ cfg Hcfg)).
Qed.

(** Whatever [generateIBAN] throws is an [IBANGenerationError], thrown
    before the world was touched. *)
Lemma generateIBAN_throws_kind (s : string) (w : World) e w' :
  generateIBAN s w = Throws e w' ->
  isIBANGenerationError e = true /\ w' = w.
Proof.
  intros E.
  destruct (in_dec string_dec (trim (toUpperCase s)) (ObjectKeys countries))
    as [Hin|Hnot].
  - now apply (generateIBAN_accepts s w Hin) in E.
  - rewrite (generateIBAN_rejects s w Hnot) in E.
    injection E as <- <-. split; [|reflexivity].
    now destruct (String.eqb (trim (toUpperCase s)) "").
Qed.

(** X4: on an argument of ASCII characters, [generateIBAN] throws exactly
    when the trimmed, upper-cased form of
    its argument is not a code of the registry.  It then throws before any
    entropy is drawn or any check digit computed, and the error is the
    "required" error for an empty form and the "not supported" error
    otherwise; no other error ever leaves [generateIBAN]. *)
Theorem generateIBAN_throws_iff (s : string) (w : World) :
  all isAscii s = true ->
  let n := trim (toUpperCase s) in
  (In n getAvailableCountries ->
   forall e w', generateIBAN s w <> Throws e w')
  /\ (~ In n getAvailableCountries ->
      generateIBAN s w
      = Throws (if String.eqb n ""
                then IBANGenerationError "Country code is required" None
                else IBANGenerationError
                       ("Country code '" ++ n
                        ++ "' is not supported. Supported codes: "
                        ++ join ", " getAvailableCountries)
                       (Some n))
               w).
Proof.
  intros _ n. unfold getAvailableCountries. split.
  - apply generateIBAN_accepts.
  - apply generateIBAN_rejects.
Qed.

Lemma generateIBAN_throws_iff_witness :
  (forall e w', generateIBAN " de" (mkWorld [] 0) <> Throws e w')
  /\ generateIBAN "tostring" (mkWorld [Init.Byte.x01] 0)
     = Throws (IBANGenerationError
                 ("Country code 'TOSTRING' is not supported. Supported codes: "
                  ++ "NL, DE, FR, GB, ES, IT, BE, CH, AT, DK")
                 (Some "TOSTRING"))
              (mkWorld [Init.Byte.x01] 0).
Proof.
  split.
  - destruct (generateIBAN_throws_iff " de" (mkWorld [] 0) eq_refl) as [H _].
    apply H. right. left. reflexivity.
  - destruct (generateIBAN_throws_iff "tostring" (mkWorld [Init.Byte.x01] 0)
                eq_refl) as [_ H].
    apply H. cbn [getAvailableCountries ObjectKeys countries map fst In].
    intuition discriminate.
Defined.

(** ** The checksum engine off the alphabet *)

Section Transliteration.

Lemma toString_two (k : Z) : 10 <= k < 100 -> toString k = pad2 k.
Proof.
  intros Hk.
  assert (H : forall k, 0 <= k < 100 ->
              (k <? 10) || String.eqb (toString k) (pad2 k) = true).
  { apply (below_100 (fun k => (k <? 10) || String.eqb (toString k) (pad2 k))).
    vm_compute. reflexivity. }
  specialize (H k ltac:(lia)).
  apply orb_prop in H as [H|H]; [lia|now apply String.eqb_eq].
Qed.

Lemma toUpperCase_append (s t : string) :
  toUpperCase (s ++ t) = toUpperCase s ++ toUpperCase t.
Proof. induction s as [|c s IH]; simpl; [reflexivity|now rewrite IH]. Qed.

(** The loop upper-cases each character itself, so it reads a string and
    its upper-cased form alike. *)
Lemma transliterate_upper (s acc : string) :
  transliterate (toUpperCase s) acc = transliterate s acc.
Proof.
  revert acc; induction s as [|c s IH]; intros acc; [reflexivity|].
  cbn [toUpperCase transliterate]. rewrite upperChar_idem.
  destruct (charToNumber (String (upperChar c) "")); cbn [rbind];
    [apply IH|reflexivity].
Qed.

Lemma charToNumber_alnum (u : ascii) :
  isAlnum u = true ->
  exists d, charToNumber (String u "") = Ok d.
Proof.
  intros Hu. unfold isAlnum in Hu. apply orb_prop in Hu as [Hu|Hu].
  - exists (String u ""). pose proof (charToNumber_digit u Hu) as H.
    cbn [toUpperCase] in H. unfold upperChar in H.
    now rewrite (digit_not_lower _ Hu) in H.
  - exists (toString (code u - 55)). pose proof (charToNumber_upper u Hu) as H.
    cbn [toUpperCase] in H. unfold upperChar in H.
    now rewrite (upper_not_lower _ Hu) in H.
Qed.

Lemma charToNumber_invalid (u : ascii) (rest : string) :
  isAlnum u = false ->
  charToNumber (String u rest)
  = Err (IBANGenerationError
           ("Invalid character '" ++ String u rest ++ "' in IBAN calculation")
           None).
Proof.
  intros Hu. unfold isAlnum in Hu. apply orb_false_elim in Hu as [Hd Hl].
  unfold charToNumber, charCodeAt0.
  unfold isDigit, isUpper, between in Hd, Hl. now rewrite Hd, Hl.
Qed.

(** The loop stops at the first character of the string that is,
    upper-cased, neither a digit nor a letter, and reports it; what follows
    the string is not looked at. *)
Lemma transliterate_first_offender (s t acc : string) :
  all isAlnum (toUpperCase s) = false ->
  exists before c after,
    s = before ++ String c after
    /\ all isAlnum (toUpperCase before) = true
    /\ isAlnum (upperChar c) = false
    /\ transliterate (s ++ t) acc
       = Err (IBANGenerationError
                ("Invalid character '" ++ toUpperCase (String c "")
                 ++ "' in IBAN calculation")
                None).
Proof.
  revert acc; induction s as [|c s IH]; intros acc; [discriminate|].
  cbn [toUpperCase all]. change (String c s ++ t) with (String c (s ++ t)).
  cbn [transliterate toUpperCase].
  destruct (isAlnum (upperChar c)) eqn:Hu.
  - cbn [andb]. intros Hs.
    destruct (charToNumber_alnum _ Hu) as (d & ->). cbn [rbind].
    destruct (IH (acc ++ d) Hs) as (before & x & after & -> & Hb & Hx & E).
    exists (String c before), x, after.
    split; [reflexivity|]. split; [|split; [assumption|exact E]].
    cbn [toUpperCase all]. now rewrite Hu, Hb.
  - intros _. exists "", c, s.
    split; [reflexivity|]. split; [reflexivity|]. split; [assumption|].
    now rewrite (charToNumber_invalid _ "" Hu).
Qed.

End Transliteration.

(** X9: [charToNumber] looks at the first character only.  A decimal digit
    gives the string back; a capital letter gives the two decimal digits of
    its rank plus ten, from 10 for A to 35 for Z; any other first character,
    and the empty string, give the "Invalid character" error that quotes
    the string. *)
Theorem charToNumber_cases (c : ascii) (rest : string) :
  (isDigit c = true -> charToNumber (String c rest) = Ok (String c rest))
  /\ (isUpper c = true ->
      exists d1 d2,
        charToNumber (String c rest) = Ok (String d1 (String d2 ""))
        /\ isDigit d1 = true /\ isDigit d2 = true
        /\ decimal (String d1 (String d2 "")) 0 = code c - 65 + 10
        /\ 10 <= code c - 65 + 10 <= 35)
  /\ (isAlnum c = false ->
      charToNumber (String c rest)
      = Err (IBANGenerationError
               ("Invalid character '" ++ String c rest
                ++ "' in IBAN calculation") None))
  /\ charToNumber ""
     = Err (IBANGenerationError "Invalid character '' in IBAN calculation" None).
Proof.
  split; [|split; [|split]].
  - intros Hc. unfold charToNumber, charCodeAt0.
    unfold isDigit, between in Hc. now rewrite Hc.
  - intros Hc.
    assert (Hk : 10 <= code c - 55 <= 35)
      by (unfold isUpper, between in Hc; lia).
    assert (Hq : 0 <= (code c - 55) / 10 < 10)
      by (split; [apply Z.div_pos; lia|apply Z.div_lt_upper_bound; lia]).
    pose proof (Z.mod_pos_bound (code c - 55) 10 ltac:(lia)) as Hr.
    exists (digitChar ((code c - 55) / 10)), (digitChar ((code c - 55) mod 10)).
    split; [|split; [|split; [|split]]].
    + unfold charToNumber, charCodeAt0.
      pose proof (upper_not_digit _ Hc) as Hd.
      unfold isDigit, isUpper, between in Hc, Hd. rewrite Hd, Hc.
      rewrite toString_two by lia. now rewrite pad2_digits by lia.
    + apply digitChar_isDigit; lia.
    + apply digitChar_isDigit; lia.
    + rewrite <- pad2_digits by lia. rewrite decimal_pad2 by lia. lia.
    + lia.
  - apply charToNumber_invalid.
  - reflexivity.
Qed.

Lemma charToNumber_cases_witness :
  charToNumber "7" = Ok "7"
  /\ (exists d1 d2,
        charToNumber "Z" = Ok (String d1 (String d2 ""))
        /\ isDigit d1 = true /\ isDigit d2 = true
        /\ decimal (String d1 (String d2 "")) 0 = code "Z" - 65 + 10
        /\ 10 <= code "Z" - 65 + 10 <= 35)
  /\ charToNumber "z"
     = Err (IBANGenerationError "Invalid character 'z' in IBAN calculation" None).
Proof.
  split; [|split].
  - destruct (charToNumber_cases "7" "") as [H _]. apply H. reflexivity.
  - destruct (charToNumber_cases "Z" "") as (_ & H & _). apply H. reflexivity.
  - destruct (charToNumber_cases "z" "") as (_ & _ & H & _). apply H. reflexivity.
Defined.

(** The check digits of components and of their upper-cased forms. *)
Lemma calculateCheckDigits_upper
      (countryCode bankCode accountNumber checkDigits : string) :
  calculateCheckDigits countryCode bankCode accountNumber = Ok checkDigits
  <-> calculateCheckDigits (toUpperCase countryCode) (toUpperCase bankCode)
                           (toUpperCase accountNumber) = Ok checkDigits.
Proof.
  unfold calculateCheckDigits. cbv zeta.
  replace (toUpperCase bankCode ++ toUpperCase accountNumber
           ++ toUpperCase countryCode ++ "00")
    with (toUpperCase (bankCode ++ accountNumber ++ countryCode ++ "00"))
    by (now rewrite !toUpperCase_append).
  rewrite transliterate_upper.
  destruct (transliterate (bankCode ++ accountNumber ++ countryCode ++ "00") "")
    as [numericString|e]; cbn [rbind rcatch].
  - destruct (BigInt numericString); cbn [rbind rcatch]; split; congruence.
  - split; discriminate.
Qed.

(** X10: on components of ASCII characters [calculateCheckDigits] does not
    tell small letters from capital ones: it returns check digits for three
    components exactly when it returns them for the upper-cased components,
    and they are the same. *)
Theorem calculateCheckDigits_ignores_case
        (countryCode bankCode accountNumber checkDigits : string) :
  all isAscii (bankCode ++ accountNumber ++ countryCode) = true ->
  calculateCheckDigits countryCode bankCode accountNumber = Ok checkDigits
  <-> calculateCheckDigits (toUpperCase countryCode) (toUpperCase bankCode)
                           (toUpperCase accountNumber) = Ok checkDigits.
Proof.
  intros _. split; intros H.
  - exact (proj1 (calculateCheckDigits_upper _ _ _ _) H).
  - exact (proj2 (calculateCheckDigits_upper _ _ _ _) H).
Qed.

Lemma calculateCheckDigits_ignores_case_witness :
  calculateCheckDigits "nl" "abna" "0417164300" = Ok "91"
  <-> calculateCheckDigits "NL" "ABNA" "0417164300" = Ok "91".
Proof.
  exact (calculateCheckDigits_ignores_case "nl" "abna" "0417164300" "91"
           eq_refl).
Defined.

(** X11: on components of ASCII characters [calculateCheckDigits] returns
    two decimal digits whenever the three components, upper-cased, are
    written in 0-9, A-Z; otherwise it throws the error "Failed to calculate
    check digits: Invalid character ..." that carries the country code and
    quotes, upper-cased, the first character of bank code, account number
    and country code (read in this order) that is, upper-cased, neither a
    digit nor a letter.  It has no other outcome: the conversion to a big
    integer never fails. *)
Theorem calculateCheckDigits_outcomes
        (countryCode bankCode accountNumber : string) :
  let probe := bankCode ++ accountNumber ++ countryCode in
  all isAscii probe = true ->
  (all isAlnum (toUpperCase probe) = true ->
   exists checkDigits,
     calculateCheckDigits countryCode bankCode accountNumber = Ok checkDigits
     /\ twoDigits checkDigits = true)
  /\ (all isAlnum (toUpperCase probe) = false ->
      exists before c after,
        probe = before ++ String c after
        /\ all isAlnum (toUpperCase before) = true
        /\ isAlnum (upperChar c) = false
        /\ calculateCheckDigits countryCode bankCode accountNumber
           = Err (IBANGenerationError
                    ("Failed to calculate check digits: Invalid character '"
                     ++ toUpperCase (String c "") ++ "' in IBAN calculation")
                    (Some countryCode))).
Proof.
  intros probe _. split.
  - intros Hall. unfold probe in Hall.
    rewrite !toUpperCase_append, !all_append in Hall.
    apply andb_prop in Hall as [Hb [Ha Hc]%andb_prop].
    pose proof (check_value_range
                  (probeNumeral (toUpperCase countryCode) (toUpperCase bankCode)
                                (toUpperCase accountNumber))) as Hk.
    eexists. split.
    + apply calculateCheckDigits_upper.
      apply calculateCheckDigits_alnum; assumption.
    + apply pad2_twoDigits. lia.
  - intros Hall.
    destruct (transliterate_first_offender probe "00" "" Hall)
      as (before & c & after & Hp & Hb & Hc & E).
    exists before, c, after. repeat (split; [assumption|]).
    unfold calculateCheckDigits. cbv zeta.
    replace (bankCode ++ accountNumber ++ countryCode ++ "00")
      with (probe ++ "00") by (unfold probe; now rewrite !append_assoc).
    rewrite E. reflexivity.
Qed.

Lemma calculateCheckDigits_outcomes_witness :
  (exists checkDigits,
      calculateCheckDigits "nl" "abna" "0417164300" = Ok checkDigits
      /\ twoDigits checkDigits = true)
  /\ (exists before c after,
        "AB-A" ++ "04 17" ++ "NL" = before ++ String c after
        /\ all isAlnum (toUpperCase before) = true
        /\ isAlnum (upperChar c) = false
        /\ calculateCheckDigits "NL" "AB-A" "04 17"
           = Err (IBANGenerationError
                    ("Failed to calculate check digits: Invalid character '"
                     ++ toUpperCase (String c "") ++ "' in IBAN calculation")
                    (Some "NL"))).
Proof.
  split.
  - destruct (calculateCheckDigits_outcomes "nl" "abna" "0417164300" eq_refl)
      as [H _].
    apply H. reflexivity.
  - destruct (calculateCheckDigits_outcomes "NL" "AB-A" "04 17" eq_refl)
      as [_ H].
    apply H. reflexivity.
Defined.

(** ** Synthesised letters *)

Section Letters.

Lemma returnsOnly_ret {A} (a : A) (P : A -> Prop) : P a -> returnsOnly (ret a) P.
Proof. intros Ha w. exact Ha. Qed.

Lemma returnsOnly_bind {A B} (m : M A) (k : A -> M B)
      (P : A -> Prop) (Q : B -> Prop) :
  returnsOnly m P -> (forall a, P a -> returnsOnly (k a) Q) ->
  returnsOnly (bind m k) Q.
Proof.
  intros Hm Hk w. unfold bind. specialize (Hm w).
  destruct (m w) as [a w1| |]; [|contradiction|exact I].
  exact (Hk a Hm w1).
Qed.

Lemma getSecureRandomInt_returnsOnly (min max : Z) :
  min <= max ->
  returnsOnly (getSecureRandomInt min max) (fun v => min <= v <= max).
Proof.
  intros Hle w. destruct (getSecureRandomInt min max w) as [v w'|e w'|] eqn:E.
  - exact (getSecureRandomInt_in_range min max Hle w v w' E).
  - exact (getSecureRandomInt_no_throw min max Hle w e w' E).
  - exact I.
Qed.

Lemma fromCharCode_letter (k : Z) :
  0 <= k <= 25 ->
  exists ch, fromCharCode (65 + k) = String ch "" /\ isUpper ch = true.
Proof.
  intros Hk.
  pose (check := fun k =>
    (26 <=? k) || match fromCharCode (65 + k) with
                  | String ch EmptyString => isUpper ch
                  | _ => false
                  end).
  assert (H : forall k, 0 <= k < 100 -> check k = true).
  { apply (below_100 check). vm_compute. reflexivity. }
  specialize (H k ltac:(lia)). unfold check in H.
  apply orb_prop in H as [H|H]; [lia|].
  destruct (fromCharCode (65 + k)) as [|ch [|? ?]]; try discriminate.
  now exists ch.
Qed.

Lemma replaceDigits_returnsOnly (s : string) :
  returnsOnly (replaceDigits s) (lettersFor s).
Proof.
  induction s as [|c s IH]; [now apply returnsOnly_ret|].
  cbn [replaceDigits].
  eapply (returnsOnly_bind _ _
            (fun h => exists b, h = String b ""
                                /\ (if isDigit c then isUpper b = true
                                    else b = c))).
  - destruct (isDigit c).
    + eapply returnsOnly_bind;
        [apply (getSecureRandomInt_returnsOnly 0 25); lia|].
      intros k Hk. apply returnsOnly_ret.
      destruct (fromCharCode_letter k Hk) as (ch & -> & Hch). now exists ch.
    + apply returnsOnly_ret. now exists c.
  - intros h (b & -> & Hb).
    eapply returnsOnly_bind; [exact IH|].
    intros t Ht. apply returnsOnly_ret. cbn [append lettersFor]. now split.
Qed.

Lemma lettersFor_facts (s t : string) :
  lettersFor s t ->
  String.length t = String.length s
  /\ (all isAlnum s = true -> all isUpper t = true)
  /\ (countDigits s = 0%nat -> t = s).
Proof.
  revert t; induction s as [|a s IH]; intros [|b t]; cbn [lettersFor];
    try contradiction.
  - intros _. repeat split; reflexivity.
  - intros [Hab Hst]. destruct (IH t Hst) as (Hl & Hup & Hsame).
    cbn [String.length all countDigits]. rewrite Hl.
    destruct (isDigit a) eqn:Ha.
    + rewrite Hab. split; [reflexivity|split].
      * intros [_ Hs]%andb_prop. exact (Hup Hs).
      * discriminate.
    + subst b. split; [reflexivity|split].
      * unfold isAlnum at 1. rewrite Ha. cbn [orb].
        intros [Hu Hs]%andb_prop. now rewrite Hu, Hup.
      * cbn [Nat.add]. intros H0. now rewrite Hsame.
Qed.

(** A low byte at the head of the tape is accepted by the draw of a
    letter. *)
Lemma draw_letter_head (b : byte) (tape : list byte) (calls : nat) :
  low b ->
  getSecureRandomInt 0 25 (mkWorld (b :: tape) calls)
  = Returns (Z.rem (byteValue b) 26) (mkWorld tape calls).
Proof.
  intros Hb.
  change (b :: tape) with (List.concat [] ++ [b] ++ tape)%list.
  rewrite (getSecureRandomInt_accepts 0 25 ltac:(lia) [] [b] tape calls);
    [|constructor|reflexivity|].
  { rewrite reduceBytes_cons. cbn [reduceBytes]. f_equal.
    change (25 - 0 + 1) with 26. rewrite Z.mul_0_r, Z.add_0_r. reflexivity. }
  rewrite reduceBytes_cons. cbn [reduceBytes]. unfold low in Hb.
  change (maxValidValueFor (bytesNeededFor (25 - 0 + 1)) (25 - 0 + 1)) with 233.
  lia.
Qed.

Lemma replaceDigits_progress (s : string) :
  forall tape calls,
    Forall low tape -> (countDigits s <= List.length tape)%nat ->
    exists t w', replaceDigits s (mkWorld tape calls) = Returns t w'.
Proof.
  induction s as [|c s IH]; intros tape calls Hlow Hlen.
  - now exists "", (mkWorld tape calls).
  - cbn [replaceDigits countDigits] in *. unfold bind at 1.
    destruct (isDigit c).
    + destruct tape as [|b tape]; [simpl in Hlen; lia|].
      inversion Hlow as [|? ? Hb Hlow']; subst.
      unfold bind at 1. rewrite (draw_letter_head b tape calls Hb).
      unfold ret at 1.
      destruct (IH tape calls Hlow' ltac:(simpl in Hlen; lia)) as (t & w' & E).
      unfold bind. rewrite E. eexists _, _. reflexivity.
    + unfold ret at 1.
      destruct (IH tape calls Hlow ltac:(simpl in Hlen; lia)) as (t & w' & E).
      unfold bind. rewrite E. eexists _, _. reflexivity.
Qed.

End Letters.

(** X14: [replaceDigits], the replacement of digits by random letters in
    the synthesised bank codes, never throws; what it returns has the length
    of its argument, holds a capital letter wherever the argument holds a
    decimal digit and the argument's own character elsewhere, so it holds
    no digit when the argument is in 0-9, A-Z, and is the argument itself
    when that holds no digit; and it returns on every tape of bytes of at
    most 233 that has a byte for each digit of the argument. *)
Theorem replaceDigits_letters (s : string) :
  (forall w e w', replaceDigits s w <> Throws e w')
  /\ (forall w t w',
        replaceDigits s w = Returns t w' ->
        lettersFor s t
        /\ String.length t = String.length s
        /\ (all isAlnum s = true -> all isUpper t = true)
        /\ (countDigits s = 0%nat -> t = s))
  /\ (forall tape calls,
        Forall low tape -> (countDigits s <= List.length tape)%nat ->
        exists t w', replaceDigits s (mkWorld tape calls) = Returns t w').
Proof.
  pose proof (replaceDigits_returnsOnly s) as H.
  split; [|split].
  - intros w e w' E. specialize (H w). now rewrite E in H.
  - intros w t w' E. specialize (H w). rewrite E in H.
    destruct (lettersFor_facts s t H) as (Hl & Hup & Hsame). auto.
  - apply replaceDigits_progress.
Qed.

Lemma replaceDigits_letters_witness :
  lettersFor "A1B2" "ABBD"
  /\ String.length "ABBD" = String.length "A1B2"
  /\ (all isAlnum "A1B2" = true -> all isUpper "ABBD" = true)
  /\ (countDigits "A1B2" = 0%nat -> "ABBD" = "A1B2").
Proof.
  destruct (replaceDigits_letters "A1B2") as (_ & H & _).
  apply (H (mkWorld [Init.Byte.x01; Init.Byte.xff; Init.Byte.x03] 0) "ABBD"
           (mkWorld [] 0)).
  reflexivity.
Defined.

(** ** Entropy and checksum calls of a run *)

Section Spending.

Lemma spends_ret {A} (a : A) : spends (ret a) 0 0.
Proof.
  intros w x w' [= <- <-]. split; [|lia]. exists []. split; [reflexivity|].
  simpl. lia.
Qed.

Lemma spends_bind {A B} (m : M A) (k : A -> M B) (l1 l2 c1 c2 : nat) :
  spends m l1 c1 -> (forall a, spends (k a) l2 c2) ->
  spends (bind m k) (l1 + l2) (c1 + c2).
Proof.
  intros Hm Hk w b w'. unfold bind.
  destruct (m w) as [a w1| |] eqn:E; try discriminate.
  intros E2. destruct (Hm _ _ _ E) as [(u1 & Hu1 & Hl1) Hc1].
  destruct (Hk a _ _ _ E2) as [(u2 & Hu2 & Hl2) Hc2].
  split; [|lia]. exists (u1 ++ u2)%list. split.
  - now rewrite Hu1, Hu2, app_assoc.
  - rewrite length_app. lia.
Qed.

Lemma spends_throwing_handler {A} (m : M A) (h : JSError -> M A) (l c : nat) :
  spends m l c -> (forall e w a w', h e w <> Returns a w') ->
  spends (tryCatch m h) l c.
Proof.
  intros Hm Hh w a w'. unfold tryCatch.
  destruct (m w) as [x w1|e w1|] eqn:E; try discriminate.
  - intros [= <- <-]. exact (Hm _ _ _ E).
  - intros E2. now apply Hh in E2.
Qed.

Lemma spends_lift {A} (r : result A) : spends (lift r) 0 0.
Proof.
  destruct r as [a|e]; [apply spends_ret|].
  intros w a w'. discriminate.
Qed.

Lemma spends_draw (min max : Z) :
  min <= max ->
  spends (getSecureRandomInt min max)
         (Z.to_nat (bytesNeededFor (max - min + 1))) 0.
Proof.
  intros Hle w v w' E.
  destruct (getSecureRandomInt_returns min max Hle w v w' E)
    as (skipped & d & _ & Hd & _ & _ & Hent & Hc).
  split; [|lia]. exists (List.concat skipped ++ d)%list. split.
  - now rewrite Hent, <- app_assoc.
  - rewrite length_app. lia.
Qed.

Lemma spends_numericLoop (n : nat) :
  forall acc, spends (numericLoop n acc) n 0.
Proof.
  induction n as [|n IH]; intros acc; [apply spends_ret|].
  cbn [numericLoop].
  apply (spends_bind _ _ 1 n 0 0); [exact (spends_draw 0 9 ltac:(lia))|].
  intros d. apply IH.
Qed.

Lemma spends_alphanumericLoop (n : nat) :
  forall acc, spends (alphanumericLoop n acc) n 0.
Proof.
  induction n as [|n IH]; intros acc; [apply spends_ret|].
  cbn [alphanumericLoop]. change (Z.of_nat (String.length chars) - 1) with 35.
  apply (spends_bind _ _ 1 n 0 0); [exact (spends_draw 0 35 ltac:(lia))|].
  intros d. apply IH.
Qed.

Lemma spends_numeric (n : Z) :
  spends (generateRandomNumericString n) (Z.to_nat n) 0.
Proof.
  unfold generateRandomNumericString. destruct (n <=? 0) eqn:E.
  - replace (Z.to_nat n) with 0%nat by lia. apply spends_ret.
  - apply spends_numericLoop.
Qed.

Lemma spends_alphanumeric (n : Z) :
  spends (generateRandomAlphanumericString n) (Z.to_nat n) 0.
Proof.
  unfold generateRandomAlphanumericString. destruct (n <=? 0) eqn:E.
  - replace (Z.to_nat n) with 0%nat by lia. apply spends_ret.
  - apply spends_alphanumericLoop.
Qed.

Lemma spends_generateBankCode c cfg :
  In (c, cfg) countries -> spends (generateBankCode c) 1 0.
Proof.
  intros Hin. pose proof (registry_facts _ _ Hin) as facts.
  unfold generateBankCode. rewrite (registered _ _ facts).
  cbv zeta. rewrite (pool_size _ _ facts).
  cbn [Nat.ltb Nat.leb]. change (Z.of_nat 4 - 1) with 3.
  apply (spends_bind _ _ 1 0 0 0); [exact (spends_draw 0 3 ltac:(lia))|].
  intros i. apply spends_ret.
Qed.

Lemma spends_generateAccountNumber c cfg :
  In (c, cfg) countries ->
  spends (generateAccountNumber c) (Z.to_nat (accountNumberLength cfg)) 0.
Proof.
  intros Hin. unfold generateAccountNumber.
  rewrite (registered _ _ (registry_facts _ _ Hin)). cbv zeta.
  each_country Hin;
    cbn [String.eqb Ascii.eqb Bool.eqb accountNumberLength].
  all: try apply spends_numeric.
  all: try apply (spends_alphanumeric 12).
  apply (spends_bind _ _ 11 2 0 0); [apply (spends_alphanumeric 11)|].
  intros a. apply (spends_bind _ _ 2 0 0 0); [apply (spends_numeric 2)|].
  intros b. apply spends_ret.
Qed.

Lemma spends_runCalculateCheckDigits c bank acct :
  spends (runCalculateCheckDigits c bank acct) 0 1.
Proof.
  intros w cd w'. unfold runCalculateCheckDigits.
  destruct (calculateCheckDigits c bank acct); [|discriminate].
  intros [= <- <-]. cbn [entropy checksumCalls]. split; [|lia].
  exists []. split; [reflexivity|simpl; lia].
Qed.

End Spending.

(** X5: a run of [generateIBAN] that returns, for a supported country code,
    has read a prefix of the tape of at least one byte for the bank code and
    one byte for each character of the account number, has left the rest of
    the tape as it was, and has entered [calculateCheckDigits] exactly
    once. *)
Theorem generateIBAN_cost (c : string) (cfg : IBANCountryConfig) :
  In (c, cfg) countries ->
  forall w iban w',
    generateIBAN c w = Returns iban w' ->
    (exists used,
        entropy w = (used ++ entropy w')%list
        /\ (1 + Z.to_nat (accountNumberLength cfg) <= List.length used)%nat)
    /\ checksumCalls w' = (checksumCalls w + 1)%nat.
Proof.
  intros Hin. pose proof (registry_facts _ _ Hin) as facts.
  change (spends (generateIBAN c) (1 + Z.to_nat (accountNumberLength cfg)) 1).
  unfold generateIBAN. cbv zeta.
  rewrite (normal_form _ _ facts), (supported _ _ facts).
  change (bind (lift (Ok tt)) ?k) with (k tt). cbv beta.
  apply spends_throwing_handler.
  - replace (1 + Z.to_nat (accountNumberLength cfg))%nat
      with (1 + (Z.to_nat (accountNumberLength cfg) + (0 + (0 + 0))))%nat
      by lia.
    apply (spends_bind _ _ _ _ 0 1); [exact (spends_generateBankCode _ _ Hin)|].
    intros bank.
    apply (spends_bind _ _ _ _ 0 1);
      [exact (spends_generateAccountNumber _ _ Hin)|].
    intros acct.
    apply (spends_bind _ _ _ _ 1 0); [apply spends_runCalculateCheckDigits|].
    intros cd.
    apply (spends_bind _ _ _ _ 0 0); [apply spends_lift|].
    intros _. apply spends_ret.
  - intros e w a w'. destruct (isIBANGenerationError e); discriminate.
Qed.

Lemma generateIBAN_cost_witness :
  (exists used,
      [Init.Byte.xff; Init.Byte.x02; Init.Byte.xfa; Init.Byte.x01;
       Init.Byte.x02; Init.Byte.x03; Init.Byte.x04; Init.Byte.x05;
       Init.Byte.x06; Init.Byte.x07; Init.Byte.x08; Init.Byte.x09;
       Init.Byte.x09; Init.Byte.x77]
      = (used ++ [Init.Byte.x09; Init.Byte.x77])%list
      /\ (1 + Z.to_nat 10 <= List.length used)%nat)
  /\ 1%nat = (0 + 1)%nat.
Proof.
  apply (generateIBAN_cost "NL" _ (or_introl eq_refl)
           (mkWorld [Init.Byte.xff; Init.Byte.x02; Init.Byte.xfa; Init.Byte.x01;
                     Init.Byte.x02; Init.Byte.x03; Init.Byte.x04; Init.Byte.x05;
                     Init.Byte.x06; Init.Byte.x07; Init.Byte.x08; Init.Byte.x09;
                     Init.Byte.x09; Init.Byte.x77] 0)
           "NL77TRIO2123456789" (mkWorld [Init.Byte.x09; Init.Byte.x77] 1)).
  reflexivity.
Defined.

(** ** The popup *)

(** X16: [handleGenerate] never throws and is pending only while
    [generateIBAN] is.  The state it leaves has the busy flag and the copy
    flag down and the selected country unchanged, and shows either the
    string that [generateIBAN] returned, with no error, or no string and the
    text "Error: " followed by the message of what [generateIBAN] threw;
    never both, and never the "unexpected error" text.  For a country that
    [getAvailableCountries] offers it shows no error. *)
Theorem handleGenerate_outcome (st : PopupState) (w : World) :
  match handleGenerate st w with
  | Returns st' w' =>
      isGenerating st' = false /\ copySuccess st' = false
      /\ selectedCountry st' = selectedCountry st
      /\ (error st' = "" \/ generatedIBAN st' = "")
      /\ ((generateIBAN (selectedCountry st) w = Returns (generatedIBAN st') w'
           /\ error st' = "")
          \/ (exists e,
                 generateIBAN (selectedCountry st) w = Throws e w'
                 /\ generatedIBAN st' = ""
                 /\ error st' = "Error: " ++ message e))
      /\ (In (selectedCountry st) getAvailableCountries -> error st' = "")
  | Throws _ _ => False
  | Pending => generateIBAN (selectedCountry st) w = Pending
  end.
Proof.
  unfold handleGenerate. cbv zeta. unfold bind, tryCatch.
  destruct (generateIBAN (selectedCountry st) w) as [iban w1|e w1|] eqn:E;
    cbn [ret]; [| |reflexivity].
  - unfold ret. cbn. repeat split; auto.
  - destruct (generateIBAN_throws_kind _ _ _ _ E) as [Hk ->]. rewrite Hk.
    unfold ret. cbn. repeat split; auto.
    + right. exists e. auto.
    + intros Hin. exfalso.
      destruct (registered_key _ Hin) as (cfg & Hcfg).
      exact (yields_no_throw _ _ _ _ _ _
               (generateIBAN_yields _ cfg Hcfg) E).
Qed.

Lemma handleGenerate_outcome_witness :
  error (mkPopup "NL" "NL85ABNA0000000000" "" false false) = "".
Proof.
  pose proof (handleGenerate_outcome initialState
                (mkWorld (repeat Init.Byte.x00 11) 0)) as H.
  change (handleGenerate initialState (mkWorld (repeat Init.Byte.x00 11) 0))
    with (Returns (mkPopup "NL" "NL85ABNA0000000000" "" false false)
                  (mkWorld [] 1)) in H.
  destruct H as (_ & _ & _ & _ & _ & H). apply H. left. reflexivity.
Defined.

(** ** What the generators can produce *)

Section Coverage.

Lemma byte_with_value (d : Z) : 0 <= d < 256 -> exists b, byteValue b = d.
Proof.
  intros Hd.
  assert (Hin : In d (map byteValue allBytes))
    by (rewrite allBytes_values; apply in_zrange; lia).
  apply in_map_iff in Hin as (b & Hb & _). now exists b.
Qed.

(** A byte below the range of a one-byte draw from zero is returned as it
    is. *)
Lemma draw_head (max : Z) (b : byte) (tape : list byte) (calls : nat) :
  0 <= max ->
  bytesNeededFor (max - 0 + 1) = 1 ->
  byteValue b <= max ->
  getSecureRandomInt 0 max (mkWorld (b :: tape) calls)
  = Returns (byteValue b) (mkWorld tape calls).
Proof.
  intros Hmax Hbytes Hb.
  pose proof (byteValue_range b) as Hr.
  change (b :: tape) with (List.concat [] ++ [b] ++ tape)%list.
  rewrite (getSecureRandomInt_accepts 0 max Hmax [] [b] tape calls);
    [|constructor|now rewrite Hbytes|].
  - rewrite reduceBytes_cons. cbn [reduceBytes]. f_equal.
    rewrite Z.mul_0_r, Z.add_0_r, Z.rem_mod_nonneg by lia.
    rewrite Z.mod_small by lia. reflexivity.
  - rewrite reduceBytes_cons. cbn [reduceBytes].
    destruct (maxValidValueFor_spec (max - 0 + 1) ltac:(lia)) as (E & Hq & _).
    rewrite E. nia.
Qed.

Lemma digitChar_of_digit (c : ascii) :
  isDigit c = true -> digitChar (code c - 48) = c.
Proof.
  intros Hc. unfold digitChar, code.
  unfold isDigit, between, code in Hc.
  replace (Z.to_nat (48 + (Z.of_nat (nat_of_ascii c) - 48)))
    with (nat_of_ascii c) by lia.
  apply ascii_nat_embedding.
Qed.

Lemma numericLoop_onto (s : string) :
  all isDigit s = true ->
  forall acc calls,
    exists tape,
      List.length tape = String.length s
      /\ numericLoop (String.length s) acc (mkWorld tape calls)
         = Returns (acc ++ s) (mkWorld [] calls).
Proof.
  induction s as [|c s IH]; intros Hs acc calls.
  - exists []. split; [reflexivity|]. cbn. now rewrite append_nil_r.
  - cbn [all] in Hs. apply andb_prop in Hs as [Hc Hs].
    assert (Hd : 0 <= code c - 48 <= 9)
      by (unfold isDigit, between in Hc; lia).
    destruct (byte_with_value (code c - 48) ltac:(lia)) as (b & Hb).
    destruct (IH Hs (acc ++ String c "") calls) as (tape & Hlen & E).
    exists (b :: tape). split; [simpl; now rewrite Hlen|].
    cbn [String.length numericLoop]. unfold bind.
    rewrite (draw_head 9 b tape calls ltac:(lia) eq_refl ltac:(lia)).
    rewrite Hb, (toString_digit _ Hd), (digitChar_of_digit _ Hc), E.
    now rewrite append_assoc.
Qed.

Lemma chars_index (c : ascii) :
  isAlnum c = true ->
  exists i, 0 <= i <= 35 /\ charAt chars i = String c "".
Proof.
  intros Hc.
  exists (if isDigit c then code c - 48 + 26 else code c - 65).
  revert Hc.
  destruct c as [[] [] [] [] [] [] [] []]; try discriminate;
    intros _; vm_compute; repeat split; discriminate.
Qed.

Lemma alphanumericLoop_onto (s : string) :
  all isAlnum s = true ->
  forall acc calls,
    exists tape,
      List.length tape = String.length s
      /\ alphanumericLoop (String.length s) acc (mkWorld tape calls)
         = Returns (acc ++ s) (mkWorld [] calls).
Proof.
  induction s as [|c s IH]; intros Hs acc calls.
  - exists []. split; [reflexivity|]. cbn. now rewrite append_nil_r.
  - cbn [all] in Hs. apply andb_prop in Hs as [Hc Hs].
    destruct (chars_index c Hc) as (i & Hi & Hch).
    destruct (byte_with_value i ltac:(lia)) as (b & Hb).
    destruct (IH Hs (acc ++ String c "") calls) as (tape & Hlen & E).
    exists (b :: tape). split; [simpl; now rewrite Hlen|].
    cbn [String.length alphanumericLoop]. unfold bind.
    change (Z.of_nat (String.length chars) - 1) with 35.
    rewrite (draw_head 35 b tape calls ltac:(lia) eq_refl ltac:(lia)).
    rewrite Hb, Hch, E. now rewrite append_assoc.
Qed.

End Coverage.

(** X17: every non-empty string of decimal digits is a possible result of
    [generateRandomNumericString] for its length: some tape with one byte
    per digit makes the function return exactly that string and use the
    tape up. *)
Theorem generateRandomNumericString_onto (s : string) (calls : nat) :
  all isDigit s = true -> s <> "" ->
  exists tape,
    List.length tape = String.length s
    /\ generateRandomNumericString (Z.of_nat (String.length s))
         (mkWorld tape calls)
       = Returns s (mkWorld [] calls).
Proof.
  intros Hs Hne. unfold generateRandomNumericString.
  destruct (Z.of_nat (String.length s) <=? 0) eqn:E.
  - destruct s as [|a s]; [congruence|]. apply Z.leb_le in E.
    change (String.length (String a s)) with (S (String.length s)) in E. lia.
  - rewrite Nat2Z.id. exact (numericLoop_onto s Hs "" calls).
Qed.

Lemma generateRandomNumericString_onto_witness :
  exists tape,
    List.length tape = String.length "0417164300"
    /\ generateRandomNumericString (Z.of_nat (String.length "0417164300"))
         (mkWorld tape 0)
       = Returns "0417164300" (mkWorld [] 0).
Proof.
  apply (generateRandomNumericString_onto "0417164300" 0).
  - reflexivity.
  - discriminate.
Defined.

(** X18: every non-empty string over 0-9, A-Z is a possible result of
    [generateRandomAlphanumericString] for its length: some tape with one
    byte per character makes the function return exactly that string and
    use the tape up. *)
Theorem generateRandomAlphanumericString_onto (s : string) (calls : nat) :
  all isAlnum s = true -> s <> "" ->
  exists tape,
    List.length tape = String.length s
    /\ generateRandomAlphanumericString (Z.of_nat (String.length s))
         (mkWorld tape calls)
       = Returns s (mkWorld [] calls).
Proof.
  intros Hs Hne. unfold generateRandomAlphanumericString.
  destruct (Z.of_nat (String.length s) <=? 0) eqn:E.
  - destruct s as [|a s]; [congruence|]. apply Z.leb_le in E.
    change (String.length (String a s)) with (S (String.length s)) in E. lia.
  - rewrite Nat2Z.id. exact (alphanumericLoop_onto s Hs "" calls).
Qed.

Lemma generateRandomAlphanumericString_onto_witness :
  exists tape,
    List.length tape = String.length "Z9A0"
    /\ generateRandomAlphanumericString (Z.of_nat (String.length "Z9A0"))
         (mkWorld tape 0)
       = Returns "Z9A0" (mkWorld [] 0).
Proof.
  apply (generateRandomAlphanumericString_onto "Z9A0" 0).
  - reflexivity.
  - discriminate.
Defined.

(** X19: every sample bank code of a supported country is a possible
    result of [generateBankCode]: one of the bytes 0, 1, 2, 3 alone on the
    tape makes the function return it. *)
Theorem generateBankCode_onto (c : string) (cfg : IBANCountryConfig)
        (bank : string) :
  In (c, cfg) countries -> In bank (sampleBankCodes cfg) ->
  exists b,
    byteValue b <= 3
    /\ generateBankCode c (mkWorld [b] 0) = Returns bank (mkWorld [] 0).
Proof.
  intros Hin Hbank. each_country Hin; cbn [sampleBankCodes In] in Hbank;
    destruct Hbank as [<-|[<-|[<-|[<-|[]]]]];
    first [ exists Init.Byte.x00; split; [discriminate|reflexivity]
          | exists Init.Byte.x01; split; [discriminate|reflexivity]
          | exists Init.Byte.x02; split; [discriminate|reflexivity]
          | exists Init.Byte.x03; split; [discriminate|reflexivity] ].
Qed.

Lemma generateBankCode_onto_witness :
  exists b,
    byteValue b <= 3
    /\ generateBankCode "DK" (mkWorld [b] 0) = Returns "9570" (mkWorld [] 0).
Proof.
  apply (generateBankCode_onto "DK" (mkConfig "Denmark" 18 "DK2!n4!n9!n1!n" 4 10
                                       ["0040"; "5301"; "9570"; "7311"])).
  - do 9 right. left. reflexivity.
  - right. right. left. reflexivity.
Defined.

(** ** How often a draw is rejected *)

Section Acceptance.

Lemma length_filter_all {X} (f : X -> bool) (l : list X) :
  (forall x, In x l -> f x = true) -> List.length (filter f l) = List.length l.
Proof.
  induction l as [|x l IH]; intros H; simpl; [reflexivity|].
  rewrite (H x (or_introl eq_refl)). simpl. f_equal. apply IH.
  intros y Hy. apply H. now right.
Qed.

Lemma zrange_length (n : nat) : List.length (zrange n) = n.
Proof. unfold zrange. now rewrite length_map, length_seq. Qed.

(** The numbers below [total] that are at most [bound]. *)
Lemma count_at_most (bound : Z) (total : nat) :
  0 <= bound + 1 <= Z.of_nat total ->
  Z.of_nat (List.length (filter (fun x => negb (x >? bound)) (zrange total)))
  = bound + 1.
Proof.
  intros Hb.
  replace total with (Z.to_nat (bound + 1) + (total - Z.to_nat (bound + 1)))%nat
    by lia.
  rewrite zrange_app, filter_app, length_app.
  rewrite length_filter_all, zrange_length.
  - rewrite length_filter_none; [lia|].
    intros x (y & <- & Hy%in_zrange)%in_map_iff.
    apply negb_false_iff, Z.gtb_lt. lia.
  - intros x Hx%in_zrange. apply negb_true_iff.
    destruct (Z.gtb_spec x bound); [lia|reflexivity].
Qed.

(** A rejected draw with nothing behind it leaves the loop waiting. *)
Lemma getSecureRandomInt_rejects (min max : Z) (d : list byte) (calls : nat) :
  min <= max ->
  List.length d = Z.to_nat (bytesNeededFor (max - min + 1)) ->
  accepted min max d = false ->
  getSecureRandomInt min max (mkWorld d calls) = Pending.
Proof.
  intros Hle Hd Hrej. rewrite getSecureRandomInt_unfold by assumption.
  unfold accepted in Hrej. cbv zeta in Hrej. apply negb_false_iff in Hrej.
  unfold bind, doWhile. cbn [entropy drawLoop].
  unfold bind at 1. unfold getRandomValues at 1. cbn [entropy].
  pose proof (takeBytes_app d []) as Ht. rewrite app_nil_r, Hd in Ht.
  rewrite Ht, Hrej. cbn [checksumCalls].
  destruct (List.length d) as [|n]; [reflexivity|].
  cbn [drawLoop]. unfold bind, getRandomValues. cbn [entropy].
  rewrite <- Hd. reflexivity.
Qed.

Lemma allDraws_count (n : nat) :
  List.length (allDraws n) = (256 ^ n)%nat.
Proof.
  rewrite <- (length_map (reduceBytes 0 0)), allDraws_values.
  apply zrange_length.
Qed.

End Acceptance.

(** X20: between the bounds of [safeBounds] and for [min <= max], an
    attempt of [getSecureRandomInt] draws the least number of bytes whose
    value space covers the range.  On the tape that holds one attempt and
    nothing more the helper returns at once when the draw is accepted and
    is left waiting for entropy when it is not; of all the draws of an
    attempt it returns on more than half, and on a multiple of the range. *)
Theorem getSecureRandomInt_accepts_most (min max : Z) :
  min <= max -> safeBounds min max ->
  let range := max - min + 1 in
  let bytesNeeded := bytesNeededFor range in
  let attempts := allDraws (Z.to_nat bytesNeeded) in
  let returning := filter (returnsOn min max) attempts in
  (forall d,
      List.length d = Z.to_nat bytesNeeded ->
      getSecureRandomIntIEEE min max (mkWorld d 0)
      = if accepted min max d
        then Returns (resultOf min max d) (mkWorld [] 0)
        else Pending)
  /\ Z.of_nat (List.length attempts) = 256 ^ bytesNeeded
  /\ 256 ^ bytesNeeded < 2 * Z.of_nat (List.length returning)
  /\ Z.of_nat (List.length returning) mod range = 0
  /\ range <= 256 ^ bytesNeeded
  /\ (1 < range -> 256 ^ (bytesNeeded - 1) < range).
Proof.
  intros Hle Hsafe range bytesNeeded attempts returning.
  assert (Hr : 1 <= range) by (unfold range; lia).
  destruct (bytesNeededFor_spec range Hr) as (Hb & Hcover & Hleast).
  destruct (maxValidValueFor_spec range Hr) as (Hmv & Hq & Hqr).
  fold bytesNeeded in Hb, Hcover, Hleast, Hmv, Hq, Hqr.
  set (maxValidValue := maxValidValueFor bytesNeeded range) in *.
  set (q := 256 ^ bytesNeeded / range) in *.
  assert (Htotal : Z.of_nat (256 ^ Z.to_nat bytesNeeded) = 256 ^ bytesNeeded).
  { rewrite Nat2Z.inj_pow, Z2Nat.id by assumption. reflexivity. }
  assert (Hrun : forall d,
             List.length d = Z.to_nat bytesNeeded ->
             getSecureRandomIntIEEE min max (mkWorld d 0)
             = if accepted min max d
               then Returns (resultOf min max d) (mkWorld [] 0)
               else Pending).
  { intros d Hd. rewrite getSecureRandomIntIEEE_exact by assumption.
    destruct (accepted min max d) eqn:Hacc.
    - pose proof (getSecureRandomInt_accepts min max Hle [] d [] 0%nat
                    (Forall_nil _) Hd (proj1 (accepted_iff min max d) Hacc))
        as H.
      cbn [List.concat app] in H. rewrite app_nil_r in H. exact H.
    - now apply getSecureRandomInt_rejects. }
  assert (Hcount : Z.of_nat (List.length returning) = maxValidValue + 1).
  { unfold returning.
    rewrite (filter_ext_in _ (accepted min max)).
    - pose (test := fun x => negb (x >? maxValidValue)).
      rewrite (filter_ext _ (fun d => test (reduceBytes 0 0 d)))
        by (intros d; reflexivity).
      unfold attempts.
      rewrite <- (length_filter_map test (reduceBytes 0 0)), allDraws_values.
      unfold test. apply count_at_most. rewrite Htotal. lia.
    - intros d Hd%allDraws_length. unfold returnsOn.
      rewrite (Hrun d Hd). now destruct (accepted min max d). }
  split; [exact Hrun|]. split; [|split; [|split; [|split]]].
  - unfold attempts. rewrite allDraws_count. exact Htotal.
  - rewrite Hcount.
    pose proof (Z.div_mod (256 ^ bytesNeeded) range ltac:(lia)) as Hdm.
    pose proof (Z.mod_pos_bound (256 ^ bytesNeeded) range ltac:(lia)) as Hm.
    fold q in Hdm. nia.
  - rewrite Hcount.
    replace (maxValidValue + 1) with (q * range) by lia. apply Z.mod_mul. lia.
  - exact Hcover.
  - exact Hleast.
Qed.

Lemma getSecureRandomInt_accepts_most_witness :
  getSecureRandomIntIEEE 0 35 (mkWorld [Init.Byte.xfc] 0) = Pending
  /\ getSecureRandomIntIEEE 0 35 (mkWorld [Init.Byte.xfb] 0)
     = Returns 35 (mkWorld [] 0)
  /\ 256 ^ 1
     < 2 * Z.of_nat (List.length (filter (returnsOn 0 35)
                                         (allDraws (Z.to_nat 1)))).
Proof.
  assert (H035 : 0 <= 35) by (intro E; discriminate E).
  assert (S035 : safeBounds 0 35) by (repeat split; intro E; discriminate E).
  pose proof (getSecureRandomInt_accepts_most 0 35 H035 S035) as H.
  cbv zeta in H. destruct H as (Hrun & _ & Hhalf & _).
  split; [|split].
  - exact (Hrun [Init.Byte.xfc] eq_refl).
  - exact (Hrun [Init.Byte.xfb] eq_refl).
  - exact Hhalf.
Defined.
